(** * token-refresher: a shallow embedding of [main.go] and its properties

  The development follows the layout of the program.  Module [Go]
  gives the part of the Go language and of the libraries that
  [main.go] calls directly ([strings], [time], [net/url], [net/http],
  [net/http/httputil], [os]/[ioutil], [oauth2]); module [Main] is
  [main.go] itself:
  [parseFlags], the construction of the token-endpoint parameters, the
  file-mode refresh loop, the reverse-proxy director and the two path
  joining functions.  The theorems come after the definitions. *)

From Stdlib Require Import ZArith Lia Bool Ascii.
From Stdlib Require String.
From stdpp Require Import gmap strings list fin_maps.

Local Open Scope Z_scope.

(* ===================================================================== *)
(** * The Go layer                                                        *)
(* ===================================================================== *)

Module Go.

(** ** Strings: byte sequences, as in Go *)

Definition len (s : string) : nat := String.length s.

(** [s[i:]]; Go panics when [i > len(s)], which is [None] here. *)
Definition slice_from (s : string) (i : nat) : option string :=
  if (i <=? len s)%nat then Some (String.substring i (len s - i) s) else None.

(** [strings.HasPrefix]:
    [len(s) >= len(prefix) && s[0:len(prefix)] == prefix]. *)
Definition HasPrefix (s prefix : string) : bool :=
  (len prefix <=? len s)%nat &&
  String.eqb (String.substring 0 (len prefix) s) prefix.

(** [strings.HasSuffix]:
    [len(s) >= len(suffix) && s[len(s)-len(suffix):] == suffix]. *)
Definition HasSuffix (s suffix : string) : bool :=
  (len suffix <=? len s)%nat &&
  String.eqb (String.substring (len s - len suffix) (len suffix) s) suffix.

(** [strings.Join(elems, sep)]. *)
Fixpoint Join (elems : list string) (sep : string) : string :=
  match elems with
  | [] => ""
  | [e] => e
  | e :: rest => e +:+ sep +:+ Join rest sep
  end.

(** ASCII case folding of one byte. *)
Definition lower_byte (c : ascii) : ascii :=
  let n := N_of_ascii c in
  if ((65 <=? n) && (n <=? 90))%N then ascii_of_N (n + 32) else c.

Definition upper_byte (c : ascii) : ascii :=
  let n := N_of_ascii c in
  if ((97 <=? n) && (n <=? 122))%N then ascii_of_N (n - 32) else c.

(** [strings.Split(s, sep)] for a separator of one byte. *)
Fixpoint Split (sep : ascii) (s : string) : list string :=
  match s with
  | EmptyString => [EmptyString]
  | String c rest =>
      if Ascii.eqb c sep then EmptyString :: Split sep rest
      else match Split sep rest with
           | piece :: pieces => String c piece :: pieces
           | [] => [String c EmptyString]
           end
  end.

(** [strings.IndexByte] and [strings.LastIndexByte]; [None] is [-1]. *)
Fixpoint IndexByte (s : string) (c : ascii) : option nat :=
  match s with
  | EmptyString => None
  | String d rest =>
      if Ascii.eqb d c then Some O else S <$> IndexByte rest c
  end.

Fixpoint LastIndexByte (s : string) (c : ascii) : option nat :=
  match s with
  | EmptyString => None
  | String d rest =>
      match LastIndexByte rest c with
      | Some i => Some (S i)
      | None => if Ascii.eqb d c then Some O else None
      end
  end.

(** ** [unicode/utf8] and case folding *)

Definition byteZ (c : ascii) : Z := Z.of_N (N_of_ascii c).

Definition RuneError : Z := 65533.
Definition RuneSelf : Z := 128.

(** The table [first] of [unicode/utf8] for the leading bytes of the
    sequences of two to four bytes: the length of the sequence and the
    range that is accepted for its second byte. *)
Definition utf8_first (b : Z) : option (nat * Z * Z) :=
  if (194 <=? b) && (b <=? 223) then Some (2%nat, 128, 191)
  else if b =? 224 then Some (3%nat, 160, 191)
  else if ((225 <=? b) && (b <=? 236)) || ((238 <=? b) && (b <=? 239))
    then Some (3%nat, 128, 191)
  else if b =? 237 then Some (3%nat, 128, 159)
  else if b =? 240 then Some (4%nat, 144, 191)
  else if (241 <=? b) && (b <=? 243) then Some (4%nat, 128, 191)
  else if b =? 244 then Some (4%nat, 128, 143)
  else None.

Definition continuation (b : Z) : bool := (128 <=? b) && (b <=? 191).

(** The runes of a string, as [for _, r := range s] and
    [utf8.DecodeRuneInString] yield them: a byte that does not start a
    valid sequence is the rune [RuneError], of width one. *)
Fixpoint runes (s : string) : list Z :=
  match s with
  | EmptyString => []
  | String c0 r0 =>
      let b0 := byteZ c0 in
      if b0 <? RuneSelf then b0 :: runes r0
      else
        let invalid := RuneError :: runes r0 in
        match utf8_first b0, r0 with
        | Some (sz, lo, hi), String c1 r1 =>
            let b1 := byteZ c1 in
            if (b1 <? lo) || (hi <? b1) then invalid
            else if (sz =? 2)%nat then
              Z.lor (Z.shiftl (Z.land b0 31) 6) (Z.land b1 63) :: runes r1
            else
              match r1 with
              | String c2 r2 =>
                  let b2 := byteZ c2 in
                  if negb (continuation b2) then invalid
                  else if (sz =? 3)%nat then
                    Z.lor (Z.lor (Z.shiftl (Z.land b0 15) 12)
                                 (Z.shiftl (Z.land b1 63) 6))
                          (Z.land b2 63) :: runes r2
                  else
                    match r2 with
                    | String c3 r3 =>
                        let b3 := byteZ c3 in
                        if negb (continuation b3) then invalid
                        else
                          Z.lor (Z.lor (Z.lor (Z.shiftl (Z.land b0 7) 18)
                                              (Z.shiftl (Z.land b1 63) 12))
                                       (Z.shiftl (Z.land b2 63) 6))
                                (Z.land b3 63) :: runes r3
                    | EmptyString => invalid
                    end
              | EmptyString => invalid
              end
        | _, _ => invalid
        end
  end.

(** [unicode.SimpleFold] on the orbits that hold an ASCII letter: the
    two cases of a letter, with the Kelvin sign (U+212A) in the orbit
    of [k] and the long s (U+017F) in the orbit of [s].  The result is
    the next rune of the orbit, the smallest one after the largest.
    The orbits without an ASCII letter are left out (the rune is
    returned as it is), so that [EqualFold] below is the one of Go
    whenever one of the two strings is ASCII, as in every call of this
    program. *)
Definition SimpleFold (r : Z) : Z :=
  if r =? 107 then 8490            (* k -> KELVIN SIGN *)
  else if r =? 8490 then 75        (* KELVIN SIGN -> K *)
  else if r =? 115 then 383        (* s -> LONG S *)
  else if r =? 383 then 83         (* LONG S -> S *)
  else if (65 <=? r) && (r <=? 90) then r + 32
  else if (97 <=? r) && (r <=? 122) then r - 32
  else r.

(** The loop [for r != sr && r < tr { r = unicode.SimpleFold(r) }]; no
    orbit has more than four runes. *)
Fixpoint fold_walk (fuel : nat) (sr tr r : Z) : Z :=
  match fuel with
  | O => r
  | S k => if negb (r =? sr) && (r <? tr) then fold_walk k sr tr (SimpleFold r) else r
  end.

(** The body of the loop of [strings.EqualFold] for one rune of each
    string. *)
Definition fold_equal (sr0 tr0 : Z) : bool :=
  if tr0 =? sr0 then true
  else
    let sr := Z.min sr0 tr0 in
    let tr := Z.max sr0 tr0 in
    if tr <? RuneSelf then (65 <=? sr) && (sr <=? 90) && (tr =? sr + 32)
    else fold_walk 4 sr tr (SimpleFold sr) =? tr.

Fixpoint EqualFold_runes (s t : list Z) : bool :=
  match s, t with
  | [], [] => true
  | sr :: s', tr :: t' => fold_equal sr tr && EqualFold_runes s' t'
  | _, _ => false
  end.

(** [strings.EqualFold(s, t)]: equality of the runes under simple case
    folding. *)
Definition EqualFold (s t : string) : bool := EqualFold_runes (runes s) (runes t).

(** ** Fixed-width integers and [time] *)

Definition minInt64 : Z := - 2 ^ 63.
Definition maxInt64 : Z := 2 ^ 63 - 1.

(** Two's-complement wrap-around of an [int64] result. *)
Definition wrap64 (z : Z) : Z := (z + 2 ^ 63) mod 2 ^ 64 - 2 ^ 63.

Definition in_int64 (z : Z) : Prop := minInt64 <= z <= maxInt64.

(** [time.Duration] is an [int64] count of nanoseconds. *)
Definition Duration : Type := Z.
Definition minDuration : Duration := minInt64.
Definition maxDuration : Duration := maxInt64.
Definition Second : Duration := 1000000000.
Definition Minute : Duration := 60 * Second.

(** [a - b] on two [Duration]s: ordinary [int64] subtraction. *)
Definition Duration_sub (a b : Duration) : Duration := wrap64 (a - b).

(** [time.Time] as an instant: nanoseconds since the zero [Time]
    (January 1, year 1, 00:00 UTC).  All readings are readings of one
    clock, so that the wall and the monotonic reading of a [Time] give
    the same differences; the location takes no part in what [main.go]
    computes. *)
Record Time : Type := mkTime { ns : Z }.

Definition zeroTime : Time := mkTime 0.

Definition Time_IsZero (t : Time) : bool := ns t =? 0.
Definition Time_Before (t u : Time) : bool := ns t <? ns u.
Definition Time_Add (t : Time) (d : Duration) : Time := mkTime (ns t + d).
(** [t.Round(0)] strips the monotonic reading only. *)
Definition Time_Round0 (t : Time) : Time := t.

(** [t.Sub(u)]: the difference, saturated: "if the result exceeds the
    maximum (or minimum) value that can be stored in a Duration, the
    maximum (or minimum) duration will be returned". *)
Definition Time_Sub (t u : Time) : Duration :=
  let d := ns t - ns u in
  if (minDuration <=? d) && (d <=? maxDuration) then d
  else if Time_Before t u then minDuration
  else maxDuration.

(** [<-time.NewTimer(d).C]: how long the receive blocks.  A timer of
    zero or negative duration has already expired when it is made. *)
Definition timer_wait (d : Duration) : Duration := Z.max 0 d.

(** ** [net/url] *)

Record URL : Type := mkURL {
  Scheme : string;
  Opaque : string;
  User : string;
  Host : string;
  Path : string;
  RawPath : string;
  ForceQuery : bool;
  RawQuery : string;
  Fragment : string
}.

Definition byte_of (n : N) : ascii := ascii_of_N n.

Definition is_between (lo hi : N) (c : ascii) : bool :=
  ((lo <=? N_of_ascii c) && (N_of_ascii c <=? hi))%N.

Definition is_digit (c : ascii) : bool := is_between 48 57 c.
Definition is_lower (c : ascii) : bool := is_between 97 122 c.
Definition is_upper (c : ascii) : bool := is_between 65 90 c.

Definition is_one_of (cs : string) (c : ascii) : bool :=
  existsb (Ascii.eqb c) (String.list_ascii_of_string cs).

(** [ishex], [unhex] and the table [upperhex] of [net/url]. *)
Definition ishex (c : ascii) : bool :=
  is_digit c || is_between 97 102 c || is_between 65 70 c.

Definition unhex (c : ascii) : N :=
  let n := N_of_ascii c in
  if is_digit c then n - 48
  else if is_between 97 102 c then n - 97 + 10
  else if is_between 65 70 c then n - 65 + 10
  else 0.

Definition upperhex (n : N) : ascii :=
  if (n <? 10)%N then byte_of (48 + n) else byte_of (65 + (n - 10)).

(** [shouldEscape(c, encodePath)]. *)
Definition shouldEscape (c : ascii) : bool :=
  if is_lower c || is_upper c || is_digit c then false
  else if is_one_of "-_.~" c then false
  else if is_one_of "$&+,/:;=?@" c then Ascii.eqb c "?"
  else true.

(** The [switch] in the loop of [validEncoded(s, encodePath)]. *)
Definition validEncodedByte (c : ascii) : bool :=
  if is_one_of "!$&'()*+,;=:@" c then true
  else if is_one_of "[]" c then true
  else if Ascii.eqb c "%" then true
  else negb (shouldEscape c).

(** [validEncoded(s, encodePath)]. *)
Fixpoint validEncoded (s : string) : bool :=
  match s with
  | EmptyString => true
  | String c s' => validEncodedByte c && validEncoded s'
  end.

(** [unescape(s, encodePath)]: [None] is the [EscapeError] of a [%] that
    is not followed by two hexadecimal digits.  The source checks the
    whole string first and decodes in a second pass; one pass gives the
    same result. *)
Fixpoint unescape (s : string) : option string :=
  match s with
  | EmptyString => Some EmptyString
  | String c rest =>
      if Ascii.eqb c "%" then
        match rest with
        | String h1 (String h2 rest') =>
            if ishex h1 && ishex h2 then
              r ← unescape rest';
              Some (String (byte_of (N.lor (N.shiftl (unhex h1) 4) (unhex h2))) r)
            else None
        | _ => None
        end
      else
        r ← unescape rest; Some (String c r)
  end.

(** [escape(s, encodePath)]. *)
Fixpoint escape (s : string) : string :=
  match s with
  | EmptyString => EmptyString
  | String c rest =>
      if shouldEscape c then
        String "%" (String (upperhex (N.shiftr (N_of_ascii c) 4))
                      (String (upperhex (N.land (N_of_ascii c) 15)) (escape rest)))
      else String c (escape rest)
  end.

(** The method [EscapedPath] of [URL]. *)
Definition EscapedPath (u : URL) : string :=
  if negb (String.eqb (RawPath u) "") && validEncoded (RawPath u)
     && bool_decide (unescape (RawPath u) = Some (Path u))
  then RawPath u
  else if String.eqb (Path u) "*" then "*"
  else escape (Path u).

(** ** [net/http]: headers and requests *)

(** [validHeaderFieldByte]: the token characters of RFC 7230. *)
Definition validHeaderFieldByte (c : ascii) : bool :=
  is_lower c || is_upper c || is_digit c || is_one_of "!#$%&'*+-.^_`|~" c.

(** The second loop of [canonicalMIMEHeaderKey]: upper case for the
    first letter and after each dash, lower case elsewhere. *)
Fixpoint canonical_bytes (upper : bool) (s : string) : string :=
  match s with
  | EmptyString => EmptyString
  | String c rest =>
      let c' := if upper then upper_byte c else lower_byte c in
      String c' (canonical_bytes (Ascii.eqb c' "-") rest)
  end.

(** [textproto.CanonicalMIMEHeaderKey]: a key with a byte that is not a
    token character is returned unchanged. *)
Definition CanonicalMIMEHeaderKey (s : string) : string :=
  if forallb validHeaderFieldByte (String.list_ascii_of_string s)
  then canonical_bytes true s else s.

(** [http.Header] is [map[string][]string]. *)
Abbreviation Header := (gmap string (list string)).

(** [h.Add(key, value)] appends to the values of the canonical key. *)
Definition Header_Add (key value : string) (h : Header) : Header :=
  let k := CanonicalMIMEHeaderKey key in
  <[k := default [] (h !! k) ++ [value]]> h.

(** [h.Set(key, value)] replaces the values of the canonical key. *)
Definition Header_Set (key value : string) (h : Header) : Header :=
  <[CanonicalMIMEHeaderKey key := [value]]> h.


(** [h.Get(key)]: the first value of the canonical key, or [""]. *)
Definition Header_Get (key : string) (h : Header) : string :=
  match h !! CanonicalMIMEHeaderKey key with
  | Some (v :: _) => v
  | _ => ""
  end.

(** [h.Del(key)]. *)
Definition Header_Del (key : string) (h : Header) : Header :=
  delete (CanonicalMIMEHeaderKey key) h.

(** The fields of [http.Request] that a proxy handles.  [ReqURL] is the
    field [URL], [ReqHost] the field [Host]. *)
Record Request : Type := mkRequest {
  Method : string;
  ReqURL : URL;
  Proto : string;
  ReqHeader : Header;
  Body : string;
  ContentLength : Z;
  ReqHost : string;
  RemoteAddr : string;
  RequestURI : string
}.

(** ** [net/http/httputil]: the reverse proxy *)

(** [httpguts]: optional white space is the space and the tab. *)
Definition isOWS (c : ascii) : bool := Ascii.eqb c " " || Ascii.eqb c "009".

Fixpoint trim_left_OWS (x : string) : string :=
  match x with
  | String c rest => if isOWS c then trim_left_OWS rest else x
  | EmptyString => EmptyString
  end.

Fixpoint trim_right_OWS (x : string) : string :=
  match x with
  | EmptyString => EmptyString
  | String c rest =>
      match trim_right_OWS rest with
      | EmptyString => if isOWS c then EmptyString else String c EmptyString
      | rest' => String c rest'
      end
  end.

Definition trimOWS (x : string) : string := trim_right_OWS (trim_left_OWS x).

(** [tokenEqual]: equal lengths and equal bytes up to ASCII case; a byte
    outside ASCII in [t1] makes the tokens different. *)
Fixpoint tokenEqual (t1 t2 : string) : bool :=
  match t1, t2 with
  | EmptyString, EmptyString => true
  | String b1 r1, String b2 r2 =>
      (byteZ b1 <? RuneSelf) && Ascii.eqb (lower_byte b1) (lower_byte b2)
      && tokenEqual r1 r2
  | _, _ => false
  end.

(** [headerValueContainsToken(v, token)]: one of the elements of [v]
    between commas is the token, white space around it apart. *)
Definition headerValueContainsToken (v token : string) : bool :=
  existsb (fun piece => tokenEqual (trimOWS piece) token) (Split "," v).

Definition HeaderValuesContainsToken (values : list string) (token : string) : bool :=
  existsb (fun v => headerValueContainsToken v token) values.

(** The headers that are meant for one connection only. *)
Definition hopHeaders : list string :=
  ["Connection"; "Proxy-Connection"; "Keep-Alive"; "Proxy-Authenticate";
   "Proxy-Authorization"; "Te"; "Trailer"; "Transfer-Encoding"; "Upgrade"].

(** [net.SplitHostPort(hostport)]: the host and the port, or [None] for
    its errors. *)
Definition SplitHostPort (hostport : string) : option (string * string) :=
  match LastIndexByte hostport ":" with
  | None => None
  | Some i =>
      let checked : option (string * nat * nat) :=
        match hostport with
        | String "[" _ =>
            match IndexByte hostport "]" with
            | None => None
            | Some e =>
                if (e + 1 =? i)%nat
                then Some (String.substring 1 (e - 1) hostport, 1%nat, (e + 1)%nat)
                else None
            end
        | _ =>
            let host := String.substring 0 i hostport in
            match IndexByte host ":" with
            | Some _ => None
            | None => Some (host, 0%nat, 0%nat)
            end
        end in
      match checked with
      | None => None
      | Some (host, j, k) =>
          match IndexByte (String.substring j (len hostport - j) hostport) "[",
                IndexByte (String.substring k (len hostport - k) hostport) "]" with
          | None, None =>
              Some (host, String.substring (S i) (len hostport - S i) hostport)
          | _, _ => None
          end
      end
  end.

(** [ReverseProxy.ServeHTTP] of Go 1.14, the version of the [Dockerfile]
    and of [go.mod], from the copy of the request to the call of the
    transport.  The two functions of [strings] that follow the tables
    of Unicode are parameters. *)
Section ReverseProxy.

Variable ToLower : string -> string.     (* strings.ToLower *)
Variable TrimSpace : string -> string.   (* strings.TrimSpace; textproto.TrimString
                                            in later versions *)

(** [upgradeType(h)]. *)
Definition upgradeType (h : Header) : string :=
  if negb (HeaderValuesContainsToken (default [] (h !! "Connection")) "Upgrade") then ""
  else ToLower (Header_Get "Upgrade" h).

(** The header names that the values of [Connection] list. *)
Definition connection_fields (h : Header) : list string :=
  List.filter (fun sf => negb (String.eqb sf ""))
    (TrimSpace <$> concat (Split "," <$> default [] (h !! "Connection"))).

(** [removeConnectionHeaders(h)]. *)
Definition removeConnectionHeaders (h : Header) : Header :=
  foldl (fun h' sf => Header_Del sf h') h (connection_fields h).

(** The body of the loop over [hopHeaders]. *)
Definition remove_hop_header (h : Header) (name : string) : Header :=
  let hv := Header_Get name h in
  if String.eqb hv "" then h
  else if String.eqb name "Te" && String.eqb hv "trailers" then h
  else Header_Del name h.

(** The statements of [ServeHTTP] on [outreq.Header], after the
    [Director] and before the transport: the headers that [Connection]
    lists and the hop-by-hop headers are removed (a hop-by-hop header
    whose first value is empty stays, and so does [Te: trailers]), the
    two headers of a protocol upgrade are put back, and the address of
    the client, [req.RemoteAddr] without its port, is added to what
    [X-Forwarded-For] held. *)
Definition proxy_headers (remote : string) (h1 : Header) : Header :=
  let reqUpType := upgradeType h1 in
  let h2 := removeConnectionHeaders h1 in
  let h3 := foldl remove_hop_header h2 hopHeaders in
  let h4 :=
    if negb (String.eqb reqUpType "")
    then Header_Set "Upgrade" reqUpType (Header_Set "Connection" "Upgrade" h3)
    else h3 in
  match SplitHostPort remote with
  | Some (clientIP, _) =>
      let ip :=
        match h4 !! "X-Forwarded-For" with
        | Some prior => Join prior ", " +:+ ", " +:+ clientIP
        | None => clientIP
        end in
      Header_Set "X-Forwarded-For" ip h4
  | None => h4
  end.

(** The request that [ServeHTTP] gives to [transport.RoundTrip]: the
    copy of the incoming request, without body when the length of the
    content is zero, after the [Director] and with the headers above.
    [None] is a panic of the [Director]. *)
Definition ReverseProxy_ServeHTTP (Director : Request -> option Request)
  (req : Request) : option Request :=
  let copy :=
    mkRequest (Method req) (ReqURL req) (Proto req) (ReqHeader req)
              (if ContentLength req =? 0 then "" else Body req)
              (ContentLength req) (ReqHost req) (RemoteAddr req) (RequestURI req) in
  outreq ← Director copy;
  Some (mkRequest (Method outreq) (ReqURL outreq) (Proto outreq)
                  (proxy_headers (RemoteAddr req) (ReqHeader outreq))
                  (Body outreq) (ContentLength outreq) (ReqHost outreq)
                  (RemoteAddr outreq) (RequestURI outreq)).

End ReverseProxy.

(** ** [golang.org/x/oauth2] *)

Record Token : Type := mkToken {
  AccessToken : string;
  TokenType : string;
  RefreshToken : string;
  Expiry : Time
}.

Definition expiryDelta : Duration := 10 * Second.

(** [t.expired()], with the clock reading [now] of [timeNow()]: a token
    without expiry (zero [Expiry]) never expires. *)
Definition Token_expired (t : Token) (now : Time) : bool :=
  if Time_IsZero (Expiry t) then false
  else Time_Before (Time_Add (Time_Round0 (Expiry t)) (- expiryDelta)) now.

(** [t.Valid()] for a non-nil token. *)
Definition Token_Valid (t : Token) (now : Time) : bool :=
  negb (String.eqb (AccessToken t) "") && negb (Token_expired t now).

(** [t.Type()]. *)
Definition Token_Type (t : Token) : string :=
  if EqualFold (TokenType t) "bearer" then "Bearer"
  else if EqualFold (TokenType t) "mac" then "MAC"
  else if EqualFold (TokenType t) "basic" then "Basic"
  else if negb (String.eqb (TokenType t) "") then TokenType t
  else "Bearer".

(** [t.SetAuthHeader(r)]. *)
Definition SetAuthHeader (t : Token) (r : Request) : Request :=
  mkRequest (Method r) (ReqURL r) (Proto r)
    (Header_Set "Authorization" (Token_Type t +:+ " " +:+ AccessToken t) (ReqHeader r))
    (Body r) (ContentLength r) (ReqHost r) (RemoteAddr r) (RequestURI r).

(** [oauth2.Transport.RoundTrip] up to the call of the base transport:
    the token of the source is put on a copy of the request; an error of
    the source is returned and nothing is sent.  The result is the
    request given to [Base]. *)
Definition Transport_RoundTrip (source : string + Token) (req : Request)
  : string + Request :=
  match source with
  | inl err => inl err
  | inr token => inr (SetAuthHeader token req)
  end.

(** ** [os] and [io/ioutil]: a file system of regular files *)

(** A path is not a file.  A path names a directory entry, and several
    paths can name the same one ([token], [./token] and the absolute
    path); a directory entry is a hard link to a regular file, and
    several entries can link to the same file; the file holds the
    bytes.  [path_entry] is the path resolution of the operating
    system, from the working directory of the process and through the
    directories on the way; it does not change while the program runs,
    which creates, replaces and removes entries of regular files only.
    What a path of the program names is a regular file or nothing. *)
Definition Entry : Type := string.
Definition Ino : Type := positive.

Record FS : Type := mkFS {
  path_entry : string -> Entry;
  links : gmap Entry Ino;
  data : gmap Ino string
}.

(** The number of a new file: one that no entry links to. *)
Definition alloc (fs : FS) : Ino :=
  Pos.succ (foldr Pos.max 1%positive (snd <$> map_to_list (links fs))).

(** What the operating system does to a write.  [WriteFile] opens with
    [O_WRONLY|O_CREATE|O_TRUNC], writes once and closes: the open can
    fail (nothing changes), or the file is truncated and the write or
    the close fails after [n] bytes. *)
Inductive WriteOutcome : Type :=
| WriteOk
| WriteOpenErr (err : string)
| WriteShort (n : nat) (err : string).

(** The open with [O_CREATE|O_TRUNC] followed by the write of [bytes]:
    the file that the path leads to gets the bytes in place of its
    own, whatever other entries link to it; when the entry does not
    exist, it is made with a new file. *)
Definition truncate_and_write (name bytes : string) (fs : FS) : FS :=
  let e := path_entry fs name in
  match links fs !! e with
  | Some i => mkFS (path_entry fs) (links fs) (<[i := bytes]> (data fs))
  | None =>
      let i := alloc fs in
      mkFS (path_entry fs) (<[e := i]> (links fs)) (<[i := bytes]> (data fs))
  end.

(** [ioutil.WriteFile(name, data, perm)]: the new file system and the
    error, if any. *)
Definition WriteFile (o : WriteOutcome) (name bytes : string) (fs : FS)
  : FS * option string :=
  match o with
  | WriteOk => (truncate_and_write name bytes fs, None)
  | WriteOpenErr err => (fs, Some err)
  | WriteShort n err => (truncate_and_write name (String.substring 0 n bytes) fs, Some err)
  end.

Inductive RenameOutcome : Type :=
| RenameOk
| RenameErr (err : string).

(** [os.Rename(oldpath, newpath)], that is [rename(2)]: the entry
    [newpath] is made to link to the file of [oldpath] in one step and
    the entry [oldpath] is removed; when both are links to the same
    file nothing is done and the call succeeds; on an error nothing
    changes.  A missing [oldpath] is an error whatever the operating
    system would otherwise answer. *)
Definition Rename (o : RenameOutcome) (oldpath newpath : string) (fs : FS)
  : FS * option string :=
  match o, links fs !! path_entry fs oldpath with
  | RenameErr err, _ => (fs, Some err)
  | RenameOk, None => (fs, Some "no such file or directory")
  | RenameOk, Some i =>
      if bool_decide (links fs !! path_entry fs newpath = Some i) then (fs, None)
      else
        (mkFS (path_entry fs)
              (<[path_entry fs newpath := i]> (delete (path_entry fs oldpath) (links fs)))
              (data fs),
         None)
  end.

(** [ioutil.ReadFile(name)]; [None] is the error for a path that names
    no file. *)
Definition ReadFile (name : string) (fs : FS) : option string :=
  i ← links fs !! path_entry fs name; data fs !! i.

(** The text of the error of [ioutil.ReadFile] for a path that names no
    file. *)
Definition ReadFile_error (name : string) : string :=
  "open " +:+ name +:+ ": no such file or directory".

(** ** [os]: the environment *)

Abbreviation Env := (gmap string string).

(** [os.LookupEnv(key)]: a variable that is set to the empty string is
    found, with the empty string as its value; the empty key names no
    variable. *)
Definition LookupEnv (env : Env) (key : string) : option string :=
  if String.eqb key "" then None else env !! key.

End Go.

(* ===================================================================== *)
(** * main.go                                                             *)
(* ===================================================================== *)

Module Main.
Import Go.

(** ** Constants and configuration *)

Definition retryInterval : Duration := 5 * Second.
Definition prefixHeader : string := "X-Forwarded-Prefix".

(** The [level.Option] values that [parseFlags] can choose. *)
Inductive LevelOption : Type := AllowError | AllowWarn | AllowInfo | AllowDebug.

Record oidcConfig : Type := mkOidcConfig {
  audience : string;
  clientID : string;
  clientSecret : string;
  issuerURL : string;
  username : string;
  password : string
}.

Record serverConfig : Type := mkServerConfig {
  listen : string;
  listenInternal : string
}.

(** [url] is a pointer in the source: [None] is [nil]. *)
Record upstreamConfig : Type := mkUpstreamConfig {
  url : option URL;
  caFile : string;
  readTimeout : Duration;
  writeTimeout : Duration
}.

Record config : Type := mkConfig {
  file : string;
  logLevel : LevelOption;
  logFormat : string;
  margin : Duration;
  name : string;
  tempFile : string;
  oidc : oidcConfig;
  server : serverConfig;
  upstream : upstreamConfig;
  scope : list string
}.

(** The values of the command-line flags after [flag.Parse()], the
    defaults taken from the environment included. *)
Record Flags : Type := mkFlags {
  flag_debug_name : string;
  flag_log_level : string;
  flag_log_format : string;
  flag_web_internal_listen : string;
  flag_web_listen : string;
  flag_oidc_issuer_url : string;
  flag_oidc_client_secret : string;
  flag_oidc_client_id : string;
  flag_oidc_audience : string;
  flag_oidc_username : string;
  flag_oidc_password : string;
  flag_scope : list string;
  flag_file : string;
  flag_temp_file : string;
  flag_url : string;
  flag_upstream_url : string;
  flag_upstream_ca_file : string;
  flag_upstream_read_timeout : Duration;
  flag_upstream_write_timeout : Duration;
  flag_margin : Duration
}.

Definition nonempty (s : string) : bool := negb (String.eqb s "").

Section ParseFlags.

(** [url.Parse]: the error text or the parsed URL. *)
Variable url_Parse : string -> string + URL.

(** [parseFlags()]: the error text or the configuration. *)
Definition parseFlags (fl : Flags) : string + config :=
  let level :=
    if String.eqb (flag_log_level fl) "error" then inr AllowError
    else if String.eqb (flag_log_level fl) "warn" then inr AllowWarn
    else if String.eqb (flag_log_level fl) "info" then inr AllowInfo
    else if String.eqb (flag_log_level fl) "debug" then inr AllowDebug
    else inl ("unexpected log level: " +:+ flag_log_level fl) in
  match level with
  | inl err => inl err
  | inr lvl =>
    if nonempty (flag_url fl) && nonempty (flag_upstream_url fl) then
      inl "use only one of --url or --upstream.url"
    else
      let u1 : string + option URL :=
        if nonempty (flag_url fl) then
          match url_Parse (flag_url fl) with
          | inl err => inl err
          | inr u => inr (Some u)
          end
        else inr None in
      match u1 with
      | inl err => inl err
      | inr up1 =>
        let u2 : string + option URL :=
          if nonempty (flag_upstream_url fl) then
            match url_Parse (flag_upstream_url fl) with
            | inl err => inl err
            | inr u => inr (Some u)
            end
          else inr up1 in
        match u2 with
        | inl err => inl err
        | inr up2 =>
          if String.eqb (flag_file fl) "" && bool_decide (up2 = None) then
            inl "one of --file or --upstream.url is required"
          else
            let temp :=
              if String.eqb (flag_temp_file fl) "" then flag_file fl +:+ ".tmp"
              else flag_temp_file fl in
            inr {| file := flag_file fl;
                   logLevel := lvl;
                   logFormat := flag_log_format fl;
                   margin := flag_margin fl;
                   name := flag_debug_name fl;
                   tempFile := temp;
                   oidc := {| audience := flag_oidc_audience fl;
                              clientID := flag_oidc_client_id fl;
                              clientSecret := flag_oidc_client_secret fl;
                              issuerURL := flag_oidc_issuer_url fl;
                              username := flag_oidc_username fl;
                              password := flag_oidc_password fl |};
                   server := {| listen := flag_web_listen fl;
                                listenInternal := flag_web_internal_listen fl |};
                   upstream := {| url := up2;
                                  caFile := flag_upstream_ca_file fl;
                                  readTimeout := flag_upstream_read_timeout fl;
                                  writeTimeout := flag_upstream_write_timeout fl |};
                   scope := flag_scope fl |}
        end
      end
  end.

End ParseFlags.

(** ** The token source: extra parameters of the token request *)

(** [url.Values], also [map[string][]string]; the nil map is [∅]. *)
Abbreviation Values := (gmap string (list string)).

(** The three assignments to [ccc.EndpointParams], in the order of the
    source.  Each one replaces the whole map. *)
Definition EndpointParams (cfg : config) : Values :=
  let p0 : Values := ∅ in
  let p1 : Values :=
    if nonempty (audience (oidc cfg)) then
      {[ "audience" := [audience (oidc cfg)] ]}
    else p0 in
  let p2 : Values :=
    if nonempty (username (oidc cfg)) && nonempty (password (oidc cfg)) then
      <[ "username" := [username (oidc cfg)] ]>
      (<[ "password" := [password (oidc cfg)] ]>
       {[ "grant_type" := ["password"] ]})
    else p1 in
  let p3 : Values :=
    if negb (length (scope cfg) =? 0)%nat then
      {[ "scope" := [Join (scope cfg) " "] ]}
    else p2 in
  p3.

(** ** Logging *)

Inductive Level : Type := LevelError | LevelWarn | LevelInfo | LevelDebug.

Inductive LogValue : Type :=
| VStr (s : string)
| VTime (t : Time).

Record LogEntry : Type := mkLogEntry {
  entry_level : Level;
  entry_keyvals : list (string * LogValue)
}.

(** [level.NewFilter(logger, option)]: which levels pass. *)
Definition allowed (o : LevelOption) (l : Level) : bool :=
  match o, l with
  | _, LevelError => true
  | AllowError, _ => false
  | _, LevelWarn => true
  | AllowWarn, _ => false
  | _, LevelInfo => true
  | AllowInfo, _ => false
  | AllowDebug, LevelDebug => true
  end.

(** ** The refresh loop of file mode *)

(** The state that the loop changes: the files and the log written so
    far. *)
Record State : Type := mkState {
  files : FS;
  logged : list LogEntry
}.

(** [level.X(logger).Log(keyvals...)]. *)
Definition Log (cfg : config) (l : Level) (kvs : list (string * LogValue))
  (st : State) : State :=
  if allowed (logLevel cfg) l
  then mkState (files st) (logged st ++ [mkLogEntry l kvs])
  else st.

(** What the world answers during one iteration, in the order in which
    the iteration asks. *)
Record CycleEnv : Type := mkCycleEnv {
  fetched : string + Token;        (* ccc.Token(ctx): the error or the token *)
  now_valid : Time;                (* the clock read by t.Valid() *)
  write_outcome : WriteOutcome;    (* ioutil.WriteFile *)
  rename_outcome : RenameOutcome;  (* os.Rename *)
  now_sched : Time;                (* time.Now() in the computation of d *)
  ctx_done : bool                  (* the select receives from ctx.Done() *)
}.

(** The two steps of the [default] case that publish the token: the
    temporary file is written, then renamed to the token file.  The
    result is the files afterwards and, when a step failed, the message
    that is logged with the error; after a failure the [break] leaves
    the [switch]. *)
Definition publish (cfg : config) (wo : WriteOutcome) (ro : RenameOutcome)
  (t : Token) (fs : FS) : FS * option (string * string) :=
  let '(fs1, werr) := WriteFile wo (tempFile cfg) (AccessToken t) fs in
  match werr with
  | Some err => (fs1, Some ("failed to write token to temporary file", err))
  | None =>
      let '(fs2, rerr) := Rename ro (tempFile cfg) (file cfg) fs1 in
      match rerr with
      | Some err => (fs2, Some ("failed to write token to file", err))
      | None => (fs2, None)
      end
  end.

(** The body of the [for] up to the [select]: the new state and [d]. *)
Definition cycle (cfg : config) (e : CycleEnv) (st : State) : State * Duration :=
  let d := retryInterval in
  match fetched e with
  | inl err =>
      (Log cfg LevelError [("msg", VStr "failed to get token"); ("err", VStr err)] st, d)
  | inr t =>
      if negb (Token_Valid t (now_valid e)) then
        (Log cfg LevelError [("msg", VStr "token is invalid"); ("exp", VTime (Expiry t))] st, d)
      else
        match publish cfg (write_outcome e) (rename_outcome e) t (files st) with
        | (fs', Some (msg, err)) =>
            (Log cfg LevelError [("msg", VStr msg); ("err", VStr err)]
               (mkState fs' (logged st)), d)
        | (fs', None) =>
            (mkState fs' (logged st),
             Duration_sub (Time_Sub (Expiry t) (now_sched e)) (margin cfg))
        end
  end.

(** How a run of the loop over a finite script of answers ends:
    [Returned] is [return nil]; [Running] says that the script ended
    while the loop was about to fetch again. *)
Inductive Exit : Type := Returned | Running.

Record Run : Type := mkRun {
  final : State;
  slept : list Duration;   (* the waits that the timer completed, in order *)
  fetches : nat;           (* the calls of ccc.Token *)
  exit : Exit
}.

(** The [for] loop with its [select]. *)
Fixpoint loop (cfg : config) (envs : list CycleEnv) (st : State) : Run :=
  match envs with
  | [] => mkRun st [] 0 Running
  | e :: rest =>
      let '(st', d) := cycle cfg e st in
      if ctx_done e then mkRun st' [] 1 Returned
      else
        let r := loop cfg rest st' in
        mkRun (final r) (timer_wait d :: slept r) (S (fetches r)) (exit r)
  end.

(** ** Path joining *)

(** [singleJoiningSlash(a, b)].  The slice [b[1:]] is the only
    operation that can panic, hence the [option]. *)
Definition singleJoiningSlash (a b : string) : option string :=
  let aslash := HasSuffix a "/" in
  let bslash := HasPrefix b "/" in
  if aslash && bslash then
    b1 ← slice_from b 1; Some (a +:+ b1)
  else if negb aslash && negb bslash then
    Some (a +:+ "/" +:+ b)
  else
    Some (a +:+ b).

(** [joinURLPath(a, b)]: the pair [(path, rawpath)]. *)
Definition joinURLPath (a b : URL) : option (string * string) :=
  if String.eqb (RawPath a) "" && String.eqb (RawPath b) "" then
    p ← singleJoiningSlash (Path a) (Path b); Some (p, "")
  else
    let apath := EscapedPath a in
    let bpath := EscapedPath b in
    let aslash := HasSuffix apath "/" in
    let bslash := HasPrefix bpath "/" in
    if aslash && bslash then
      p1 ← slice_from (Path b) 1;
      r1 ← slice_from bpath 1;
      Some (Path a +:+ p1, apath +:+ r1)
    else if negb aslash && negb bslash then
      Some (Path a +:+ "/" +:+ Path b, apath +:+ "/" +:+ bpath)
    else
      Some (Path a +:+ Path b, apath +:+ bpath).

(** ** The reverse proxy *)

Definition set_Scheme (v : string) (u : URL) : URL :=
  mkURL v (Opaque u) (User u) (Host u) (Path u) (RawPath u)
        (ForceQuery u) (RawQuery u) (Fragment u).

Definition set_Host (v : string) (u : URL) : URL :=
  mkURL (Scheme u) (Opaque u) (User u) v (Path u) (RawPath u)
        (ForceQuery u) (RawQuery u) (Fragment u).

Definition set_Paths (p rp : string) (u : URL) : URL :=
  mkURL (Scheme u) (Opaque u) (User u) (Host u) p rp
        (ForceQuery u) (RawQuery u) (Fragment u).

Definition set_ReqURL (u : URL) (r : Request) : Request :=
  mkRequest (Method r) u (Proto r) (ReqHeader r) (Body r)
            (ContentLength r) (ReqHost r) (RemoteAddr r) (RequestURI r).

Definition set_ReqHost (h : string) (r : Request) : Request :=
  mkRequest (Method r) (ReqURL r) (Proto r) (ReqHeader r) (Body r)
            (ContentLength r) h (RemoteAddr r) (RequestURI r).

Definition set_ReqHeader (h : Header) (r : Request) : Request :=
  mkRequest (Method r) (ReqURL r) (Proto r) h (Body r)
            (ContentLength r) (ReqHost r) (RemoteAddr r) (RequestURI r).

(** The [Director] of the [httputil.ReverseProxy], statement by
    statement; [target] is [cfg.upstream.url].  [None] is a panic of
    [joinURLPath]. *)
Definition Director (target : URL) (request : Request) : option Request :=
  let r1 := set_ReqURL (set_Scheme (Scheme target) (ReqURL request)) request in
  let r2 := set_ReqHost (Host target) r1 in
  let r3 := set_ReqURL (set_Host (Host target) (ReqURL r2)) r2 in
  '(path, rawpath) ← joinURLPath target (ReqURL r3);
  let r4 := set_ReqURL (set_Paths path rawpath (ReqURL r3)) r3 in
  Some (set_ReqHeader (Header_Add prefixHeader "/" (ReqHeader r4)) r4).

(** The request that the proxy gives to the base transport: the
    [httputil.ReverseProxy] with the [Director] of [main], then the
    [oauth2.Transport] of the proxy with the answer [source] of its
    token source.  [None] is a panic, [inl] the error of the token
    source (nothing is sent upstream). *)
Section Proxy.

Variable ToLower : string -> string.     (* strings.ToLower *)
Variable TrimSpace : string -> string.   (* strings.TrimSpace *)

Definition forward (target : URL) (source : string + Token) (request : Request)
  : option (string + Request) :=
  r ← ReverseProxy_ServeHTTP ToLower TrimSpace (Director target) request;
  Some (Transport_RoundTrip source r).

End Proxy.

(** ** Defaults from the environment and the command line *)

(** [LookupEnvOrString(key, defaultVal)]. *)
Definition LookupEnvOrString (env : Env) (key defaultVal : string) : string :=
  match LookupEnv env key with
  | Some val => val
  | None => defaultVal
  end.

(** What the command line gives for each flag, already converted by
    [pflag]: [None] for a flag that is not on the command line. *)
Record CommandLine : Type := mkCommandLine {
  opt_debug_name : option string;
  opt_log_level : option string;
  opt_log_format : option string;
  opt_web_internal_listen : option string;
  opt_web_listen : option string;
  opt_oidc_issuer_url : option string;
  opt_oidc_client_secret : option string;
  opt_oidc_client_id : option string;
  opt_oidc_audience : option string;
  opt_oidc_username : option string;
  opt_oidc_password : option string;
  opt_scope : option (list string);
  opt_file : option string;
  opt_temp_file : option string;
  opt_url : option string;
  opt_upstream_url : option string;
  opt_upstream_ca_file : option string;
  opt_upstream_read_timeout : option Duration;
  opt_upstream_write_timeout : option Duration;
  opt_margin : option Duration
}.

(** [flag.Parse()]: a flag has the value of the command line, or its
    default. *)
Definition flag_Parse (defaults : Flags) (cl : CommandLine) : Flags :=
  mkFlags
    (default (flag_debug_name defaults) (opt_debug_name cl))
    (default (flag_log_level defaults) (opt_log_level cl))
    (default (flag_log_format defaults) (opt_log_format cl))
    (default (flag_web_internal_listen defaults) (opt_web_internal_listen cl))
    (default (flag_web_listen defaults) (opt_web_listen cl))
    (default (flag_oidc_issuer_url defaults) (opt_oidc_issuer_url cl))
    (default (flag_oidc_client_secret defaults) (opt_oidc_client_secret cl))
    (default (flag_oidc_client_id defaults) (opt_oidc_client_id cl))
    (default (flag_oidc_audience defaults) (opt_oidc_audience cl))
    (default (flag_oidc_username defaults) (opt_oidc_username cl))
    (default (flag_oidc_password defaults) (opt_oidc_password cl))
    (default (flag_scope defaults) (opt_scope cl))
    (default (flag_file defaults) (opt_file cl))
    (default (flag_temp_file defaults) (opt_temp_file cl))
    (default (flag_url defaults) (opt_url cl))
    (default (flag_upstream_url defaults) (opt_upstream_url cl))
    (default (flag_upstream_ca_file defaults) (opt_upstream_ca_file cl))
    (default (flag_upstream_read_timeout defaults) (opt_upstream_read_timeout cl))
    (default (flag_upstream_write_timeout defaults) (opt_upstream_write_timeout cl))
    (default (flag_margin defaults) (opt_margin cl)).

Section Environment.

(** [time.ParseDuration]: the error text or the duration. *)
Variable ParseDuration : string -> string + Duration.

(** [LookupEnvOrDuration(key, defaultVal)].  The [fmt.Sprintln] of the
    error branch builds a string that is dropped: nothing is printed. *)
Definition LookupEnvOrDuration (env : Env) (key : string) (defaultVal : Duration)
  : Duration :=
  match LookupEnv env key with
  | Some val =>
      match ParseDuration val with
      | inl _ => defaultVal
      | inr d => d
      end
  | None => defaultVal
  end.

(** The defaults that the flag definitions of [parseFlags] compute, in
    the order of the fields of [Flags]. *)
Definition flag_defaults (env : Env) : Flags :=
  mkFlags
    "token-refresher"
    (LookupEnvOrString env "LOG_LEVEL" "info")
    (LookupEnvOrString env "LOG_FORMAT" "logfmt")
    (LookupEnvOrString env "WEB_INTERNAL_LISTEN" ":8081")
    (LookupEnvOrString env "WEB_LISTEN" ":8080")
    (LookupEnvOrString env "OIDC_ISSUER_URL" "")
    (LookupEnvOrString env "OIDC_CLIENT_SECRET" "")
    (LookupEnvOrString env "OIDC_CLIENT_ID" "")
    (LookupEnvOrString env "OIDC_AUDIENCE" "")
    ""
    ""
    []
    (LookupEnvOrString env "FILE" "")
    (LookupEnvOrString env "TEMP_FILE" "")
    (LookupEnvOrString env "URL" "")
    ""
    ""
    0
    0
    (LookupEnvOrDuration env "" (5 * Minute)).

(** The flags as [parseFlags] sees them after [flag.Parse()]. *)
Definition flags_of (env : Env) (cl : CommandLine) : Flags :=
  flag_Parse (flag_defaults env) cl.

End Environment.

(** ** Start-up: [main] up to [g.Run()] *)

(** The actors that [main] adds to the [run.Group]. *)
Inductive Actor : Type :=
| SignalHandler
| InternalServer
| TokenFileLoop
| ProxyServer.

(** What [main] does to the outside, in order. *)
Inductive Event : Type :=
| Fatal (msg : string)            (* stdlog.Fatal: the message, exit status 1 *)
| NewProvider (issuer : string)   (* oidc.NewProvider: the discovery request *)
| ReadCA (path : string)          (* ioutil.ReadFile of the CA file *)
| GroupRun (actors : list Actor). (* g.Run(): the servers and loops start *)

(** The events that use the network. *)
Definition is_network (e : Event) : bool :=
  match e with
  | NewProvider _ | GroupRun _ => true
  | Fatal _ | ReadCA _ => false
  end.

Record StartEnv : Type := mkStartEnv {
  discovery : string + string;   (* oidc.NewProvider: the error or the token URL *)
  disk : FS
}.

Section Startup.

Variable url_Parse : string -> string + URL.

Definition main (fl : Flags) (env : StartEnv) : list Event :=
  match parseFlags url_Parse fl with
  | inl err => [Fatal err]
  | inr cfg =>
      match discovery env with
      | inl err =>
          [NewProvider (issuerURL (oidc cfg));
           Fatal ("OIDC provider initialization failed: " +:+ err)]
      | inr _ =>
          let actors0 := [SignalHandler; InternalServer] in
          let actors1 :=
            if nonempty (file cfg) then actors0 ++ [TokenFileLoop] else actors0 in
          match url (upstream cfg) with
          | None => [NewProvider (issuerURL (oidc cfg)); GroupRun actors1]
          | Some _ =>
              if nonempty (caFile (upstream cfg)) then
                match ReadFile (caFile (upstream cfg)) (disk env) with
                | None =>
                    [NewProvider (issuerURL (oidc cfg));
                     ReadCA (caFile (upstream cfg));
                     Fatal ("failed to initialize upstream server TLS CA: "
                            +:+ ReadFile_error (caFile (upstream cfg)))]
                | Some _ =>
                    [NewProvider (issuerURL (oidc cfg));
                     ReadCA (caFile (upstream cfg));
                     GroupRun (actors1 ++ [ProxyServer])]
                end
              else
                [NewProvider (issuerURL (oidc cfg));
                 GroupRun (actors1 ++ [ProxyServer])]
          end
      end
  end.

End Startup.

End Main.

(* ===================================================================== *)
(** * The first version of main.go                                        *)
(* ===================================================================== *)

(** The version of [main.go] that writes the token file in place: no
    temporary file, no retry interval, no proxy.  It shares the
    libraries, the log and the answers of the world with [Main]. *)

Module V1.
Import Go Main.

Record oidcConfig : Type := mkOidcConfig {
  audience : string;
  clientID : string;
  clientSecret : string;
  issuerURL : string
}.

Record serverConfig : Type := mkServerConfig {
  listenInternal : string
}.

Record config : Type := mkConfig {
  file : string;
  logLevel : LevelOption;
  logFormat : string;
  margin : Duration;
  name : string;
  oidc : oidcConfig;
  server : serverConfig
}.

(** The values of the flags of this version after [flag.Parse()]. *)
Record Flags : Type := mkFlags {
  flag_debug_name : string;
  flag_log_level : string;
  flag_log_format : string;
  flag_web_internal_listen : string;
  flag_oidc_issuer_url : string;
  flag_oidc_client_secret : string;
  flag_oidc_client_id : string;
  flag_oidc_audience : string;
  flag_file : string;
  flag_margin : Duration
}.

(** [parseFlags()]: the log level is all that is checked. *)
Definition parseFlags (fl : Flags) : string + config :=
  let level :=
    if String.eqb (flag_log_level fl) "error" then inr AllowError
    else if String.eqb (flag_log_level fl) "warn" then inr AllowWarn
    else if String.eqb (flag_log_level fl) "info" then inr AllowInfo
    else if String.eqb (flag_log_level fl) "debug" then inr AllowDebug
    else inl ("unexpected log level: " +:+ flag_log_level fl) in
  match level with
  | inl err => inl err
  | inr lvl =>
      inr {| file := flag_file fl;
             logLevel := lvl;
             logFormat := flag_log_format fl;
             margin := flag_margin fl;
             name := flag_debug_name fl;
             oidc := {| audience := flag_oidc_audience fl;
                        clientID := flag_oidc_client_id fl;
                        clientSecret := flag_oidc_client_secret fl;
                        issuerURL := flag_oidc_issuer_url fl |};
             server := {| listenInternal := flag_web_internal_listen fl |} |}
  end.

(** [level.X(logger).Log(keyvals...)] with the filter of this
    configuration. *)
Definition Log (cfg : config) (l : Level) (kvs : list (string * LogValue))
  (st : State) : State :=
  if allowed (logLevel cfg) l
  then mkState (files st) (logged st ++ [mkLogEntry l kvs])
  else st.

(** The body of the [for] up to the [select], and the duration of the
    timer of the [select].  With an error of the fetch the token [t] is
    nil, and [t.Expiry] in the [select] is a nil dereference: [None]. *)
Definition cycle (cfg : config) (e : CycleEnv) (st : State)
  : State * option Duration :=
  match fetched e with
  | inl err =>
      (Log cfg LevelError [("msg", VStr "failed to get token"); ("err", VStr err)] st,
       None)
  | inr t =>
      let st' :=
        if negb (Token_Valid t (now_valid e)) then
          Log cfg LevelError [("msg", VStr "token is invalid"); ("exp", VTime (Expiry t))] st
        else
          let '(fs1, werr) :=
            WriteFile (write_outcome e) (file cfg) (AccessToken t) (files st) in
          match werr with
          | Some err =>
              Log cfg LevelError
                [("msg", VStr "failed to write token to disk"); ("err", VStr err)]
                (mkState fs1 (logged st))
          | None => mkState fs1 (logged st)
          end in
      (st', Some (Duration_sub (Time_Sub (Expiry t) (now_sched e)) (margin cfg)))
  end.

(** [Panicked]: the goroutine of the loop died of a run-time panic, and
    the process with it. *)
Inductive Exit : Type := Returned | Running | Panicked.

Record Run : Type := mkRun {
  final : State;
  slept : list Duration;
  fetches : nat;
  exit : Exit
}.

(** The [for] loop.  The [select] evaluates the duration of its timer
    before it waits for either channel. *)
Fixpoint loop (cfg : config) (envs : list CycleEnv) (st : State) : Run :=
  match envs with
  | [] => mkRun st [] 0 Running
  | e :: rest =>
      let '(st', timer) := cycle cfg e st in
      match timer with
      | None => mkRun st' [] 1 Panicked
      | Some d =>
          if ctx_done e then mkRun st' [] 1 Returned
          else
            let r := loop cfg rest st' in
            mkRun (final r) (timer_wait d :: slept r) (S (fetches r)) (exit r)
      end
  end.

End V1.

(* ===================================================================== *)
(** * The second version of main.go                                       *)
(* ===================================================================== *)

(** The version kept at the end of [main.go]: its loop, its [Director]
    and its two joining functions are those of [Main], word for word;
    its [parseFlags] knows neither the environment nor
    [--upstream.url], the scopes, the password grant, the CA file or
    the timeouts. *)

Module V2.
Import Go Main.

Record config : Type := mkConfig {
  file : string;
  logLevel : LevelOption;
  logFormat : string;
  margin : Duration;
  name : string;
  tempFile : string;
  url : option URL;
  oidc : V1.oidcConfig;
  server : serverConfig
}.

(** The values of the flags of this version after [flag.Parse()]. *)
Record Flags : Type := mkFlags {
  flag_debug_name : string;
  flag_log_level : string;
  flag_log_format : string;
  flag_web_internal_listen : string;
  flag_web_listen : string;
  flag_oidc_issuer_url : string;
  flag_oidc_client_secret : string;
  flag_oidc_client_id : string;
  flag_oidc_audience : string;
  flag_file : string;
  flag_temp_file : string;
  flag_url : string;
  flag_margin : Duration
}.

Section ParseFlags.

Variable url_Parse : string -> string + URL.

(** [parseFlags()] of this version. *)
Definition parseFlags (fl : Flags) : string + config :=
  let level :=
    if String.eqb (flag_log_level fl) "error" then inr AllowError
    else if String.eqb (flag_log_level fl) "warn" then inr AllowWarn
    else if String.eqb (flag_log_level fl) "info" then inr AllowInfo
    else if String.eqb (flag_log_level fl) "debug" then inr AllowDebug
    else inl ("unexpected log level: " +:+ flag_log_level fl) in
  match level with
  | inl err => inl err
  | inr lvl =>
      let u : string + option URL :=
        if nonempty (flag_url fl) then
          match url_Parse (flag_url fl) with
          | inl err => inl err
          | inr u => inr (Some u)
          end
        else inr None in
      match u with
      | inl err => inl err
      | inr up =>
          if String.eqb (flag_file fl) "" && bool_decide (up = None) then
            inl "one of --file or --url is required"
          else
            let temp :=
              if String.eqb (flag_temp_file fl) "" then flag_file fl +:+ ".tmp"
              else flag_temp_file fl in
            inr {| file := flag_file fl;
                   logLevel := lvl;
                   logFormat := flag_log_format fl;
                   margin := flag_margin fl;
                   name := flag_debug_name fl;
                   tempFile := temp;
                   url := up;
                   oidc := V1.mkOidcConfig (flag_oidc_audience fl) (flag_oidc_client_id fl)
                             (flag_oidc_client_secret fl) (flag_oidc_issuer_url fl);
                   server := {| listen := flag_web_listen fl;
                                listenInternal := flag_web_internal_listen fl |} |}
      end
  end.

End ParseFlags.

End V2.

(* ===================================================================== *)
(** * The wording of the specification                                    *)
(* ===================================================================== *)

(** Definitions that follow the specification rather than the code; the
    theorems compare them with the functions of [Main]. *)

Module Spec.
Import Go Main.

(** [a] without one trailing slash, if it has one. *)
Fixpoint trim_trailing_slash (a : string) : string :=
  match a with
  | EmptyString => EmptyString
  | String c rest =>
      match rest with
      | EmptyString => if Ascii.eqb c "/" then EmptyString else a
      | String _ _ => String c (trim_trailing_slash rest)
      end
  end.

(** [b] without one leading slash, if it has one. *)
Definition trim_leading_slash (b : string) : string :=
  match b with
  | String c rest => if Ascii.eqb c "/" then rest else b
  | EmptyString => EmptyString
  end.

(** The single-slash join: whatever slash the two sides bring to the
    joint, the joint gets exactly one. *)
Definition single_slash_join (a b : string) : string :=
  trim_trailing_slash a +:+ "/" +:+ trim_leading_slash b.

(** The three ways in which the two sides of a join are put together. *)
Inductive SlashRule : Type :=
| MergeSlashes     (* both sides bring a slash: one of them is dropped *)
| AddSlash         (* neither side brings one: one is added *)
| Concatenate.     (* exactly one side brings one *)

Definition join_by (r : SlashRule) (a b : string) : string :=
  match r with
  | MergeSlashes => a +:+ String.substring 1 (len b - 1) b
  | AddSlash => a +:+ "/" +:+ b
  | Concatenate => a +:+ b
  end.

(** The rule that the ends of [a] and [b] call for. *)
Definition slash_rule (a b : string) : SlashRule :=
  match HasSuffix a "/", HasPrefix b "/" with
  | true, true => MergeSlashes
  | false, false => AddSlash
  | _, _ => Concatenate
  end.

(** Two paths lead to the same file: they name one directory entry
    (two spellings of one path), or two entries that link to one
    file. *)
Definition same_file (fs : FS) (p q : string) : Prop :=
  path_entry fs p = path_entry fs q \/
  exists i, links fs !! path_entry fs p = Some i /\
            links fs !! path_entry fs q = Some i.

(** The next wake-up as the specification words it: expiry minus now
    minus margin over the integers, with a floor of zero. *)
Definition next_wake (expiry now : Time) (margin : Duration) : Z :=
  Z.max 0 (ns expiry - ns now - margin).

(** The extra parameters of the token request as the specification
    orders them: the password grant first, else the scopes, else the
    audience. *)
Definition claimed_params (cfg : config) : Values :=
  if nonempty (username (oidc cfg)) && nonempty (password (oidc cfg)) then
    <[ "username" := [username (oidc cfg)] ]>
    (<[ "password" := [password (oidc cfg)] ]>
     {[ "grant_type" := ["password"] ]})
  else if negb (length (scope cfg) =? 0)%nat then
    {[ "scope" := [Join (scope cfg) " "] ]}
  else if nonempty (audience (oidc cfg)) then
    {[ "audience" := [audience (oidc cfg)] ]}
  else ∅.

(** The environment variables that the flag definitions name. *)
Definition env_keys : list string :=
  ["LOG_LEVEL"; "LOG_FORMAT"; "WEB_INTERNAL_LISTEN"; "WEB_LISTEN";
   "OIDC_ISSUER_URL"; "OIDC_CLIENT_SECRET"; "OIDC_CLIENT_ID"; "OIDC_AUDIENCE";
   "FILE"; "TEMP_FILE"; "URL"].

(** An iteration that does not publish: the fetch fails, the token is
    invalid, or a step of the publish fails. *)
Definition iteration_fails (e : CycleEnv) : bool :=
  match fetched e with
  | inl _ => true
  | inr t =>
      negb (Token_Valid t (now_valid e)) ||
      negb ((match write_outcome e with WriteOk => true | _ => false end) &&
            (match rename_outcome e with RenameOk => true | _ => false end))
  end.

Fixpoint count_failed (envs : list CycleEnv) : nat :=
  match envs with
  | [] => 0
  | e :: rest => (if iteration_fails e then 1 else 0) + count_failed rest
  end.

(** An iteration that publishes a token whose remaining life is at most
    the margin, all differences within the range of [Duration], and
    whose [select] takes the timer. *)
Definition refreshes_at_once (cfg : config) (e : CycleEnv) : Prop :=
  exists t,
    fetched e = inr t /\
    Token_Valid t (now_valid e) = true /\
    write_outcome e = WriteOk /\ rename_outcome e = RenameOk /\
    ctx_done e = false /\
    in_int64 (ns (Expiry t) - ns (now_sched e)) /\
    in_int64 (ns (Expiry t) - ns (now_sched e) - margin cfg) /\
    ns (Expiry t) - ns (now_sched e) <= margin cfg.

(** The flags [fl] with [--url] and [--upstream.url] replaced. *)
Definition with_urls (url_ upstream_url_ : string) (fl : Flags) : Flags :=
  mkFlags (flag_debug_name fl) (flag_log_level fl) (flag_log_format fl)
          (flag_web_internal_listen fl) (flag_web_listen fl)
          (flag_oidc_issuer_url fl) (flag_oidc_client_secret fl)
          (flag_oidc_client_id fl) (flag_oidc_audience fl)
          (flag_oidc_username fl) (flag_oidc_password fl) (flag_scope fl)
          (flag_file fl) (flag_temp_file fl) url_ upstream_url_
          (flag_upstream_ca_file fl) (flag_upstream_read_timeout fl)
          (flag_upstream_write_timeout fl) (flag_margin fl).

(** The flags of the second version as flags of the current one: every
    flag that the second version does not know is left unset. *)
Definition upgrade_flags (fl : V2.Flags) : Flags :=
  mkFlags (V2.flag_debug_name fl) (V2.flag_log_level fl) (V2.flag_log_format fl)
          (V2.flag_web_internal_listen fl) (V2.flag_web_listen fl)
          (V2.flag_oidc_issuer_url fl) (V2.flag_oidc_client_secret fl)
          (V2.flag_oidc_client_id fl) (V2.flag_oidc_audience fl)
          "" "" []
          (V2.flag_file fl) (V2.flag_temp_file fl) (V2.flag_url fl) ""
          "" 0 0 (V2.flag_margin fl).

(** The configuration of the second version and the one of the current
    version say the same. *)
Definition same_config (c2 : V2.config) (c : config) : Prop :=
  file c = V2.file c2 /\ tempFile c = V2.tempFile c2 /\
  margin c = V2.margin c2 /\ logLevel c = V2.logLevel c2 /\
  logFormat c = V2.logFormat c2 /\ name c = V2.name c2 /\
  url (upstream c) = V2.url c2 /\ server c = V2.server c2 /\
  audience (oidc c) = V1.audience (V2.oidc c2) /\
  clientID (oidc c) = V1.clientID (V2.oidc c2) /\
  clientSecret (oidc c) = V1.clientSecret (V2.oidc c2) /\
  issuerURL (oidc c) = V1.issuerURL (V2.oidc c2) /\
  username (oidc c) = "" /\ password (oidc c) = "" /\ scope c = [] /\
  caFile (upstream c) = "".

(** The log levels that [--log.level] accepts. *)
Definition valid_log_level (s : string) : bool :=
  String.eqb s "error" || String.eqb s "warn" || String.eqb s "info" || String.eqb s "debug".

(** A URL that has a plain path and nothing else. *)
Definition path_url (p : string) : URL := mkURL "" "" "" "" p "" false "" "".

End Spec.

(* ===================================================================== *)
(** * Sample inputs                                                       *)
(* ===================================================================== *)

(** Concrete configurations, tokens and answers of the world, on which
    the theorems are instantiated and the functions are run. *)

Module Sample.
Import Go Main.

Definition oidc0 : oidcConfig :=
  mkOidcConfig "observatorium" "up" "secret" "http://localhost:4444/" "" "".

Definition server0 : serverConfig := mkServerConfig ":8080" ":8081".

Definition upstream_none : upstreamConfig := mkUpstreamConfig None "" 0 0.

(** File mode with the defaults: [--file=token], margin five minutes. *)
Definition cfg_file : config :=
  mkConfig "token" AllowInfo "logfmt" (5 * Minute) "token-refresher" "token.tmp"
           oidc0 server0 upstream_none [].

(** The same with [--temp-file=token]: both paths name one file. *)
Definition cfg_alias : config :=
  mkConfig "token" AllowInfo "logfmt" (5 * Minute) "token-refresher" "token"
           oidc0 server0 upstream_none [].

(** The same with [--temp-file=./token]: another spelling of the path
    of the token file. *)
Definition cfg_dot : config :=
  mkConfig "token" AllowInfo "logfmt" (5 * Minute) "token-refresher" "./token"
           oidc0 server0 upstream_none [].

(** An instant on November 3, 2026: 63929260800 seconds after the zero
    time. *)
Definition now0 : Time := mkTime (63929260800 * Second).

Definition token_expiring_in (d : Duration) : Token :=
  mkToken "eyJhbGciOi" "bearer" "" (Time_Add now0 d).

(** The token of an answer without [expires_in]: the expiry is left at
    the zero time. *)
Definition token_no_expiry : Token := mkToken "eyJhbGciOi" "bearer" "" zeroTime.

Definition world_ok (t : Token) : CycleEnv :=
  mkCycleEnv (inr t) now0 WriteOk RenameOk now0 false.

Definition world_fetch_error : CycleEnv :=
  mkCycleEnv (inl "oauth2: cannot fetch token: 503 Service Unavailable")
             now0 WriteOk RenameOk now0 false.

Definition world_disk_full (t : Token) : CycleEnv :=
  mkCycleEnv (inr t) now0 (WriteShort 0 "no space left on device") RenameOk now0 false.


Definition world_cancelled (e : CycleEnv) : CycleEnv :=
  mkCycleEnv (fetched e) (now_valid e) (write_outcome e) (rename_outcome e)
             (now_sched e) true.

(** [--oidc.username], [--oidc.password] and [--scope] given together. *)
Definition cfg_password_scope : config :=
  mkConfig "token" AllowInfo "logfmt" (5 * Minute) "token-refresher" "token.tmp"
           (mkOidcConfig "" "up" "secret" "http://localhost:4444/" "alice" "s3cret")
           server0 upstream_none ["openid"; "profile"].

(** The upstream of the integration test, with a base path. *)
Definition upstream_url : URL :=
  mkURL "http" "" "" "127.0.0.1:8443" "/api/metrics/v1/test" "" false "" "".

(** A stand-in for [url.Parse] that knows this one URL. *)
Definition parse_sample (raw : string) : string + URL :=
  if String.eqb raw "http://127.0.0.1:8443/api/metrics/v1/test" then inr upstream_url
  else inl ("parse " +:+ raw +:+ ": invalid URL").

(** The flags with [--file], [--url] and [--upstream.url] as given and
    the rest as in the integration test. *)
Definition flags_with (file_ url_ upstream_url_ : string) : Flags :=
  mkFlags "token-refresher" "info" "logfmt" ":8081" ":8080"
          "http://localhost:4444/" "secret" "up" "observatorium" "" "" []
          file_ "" url_ upstream_url_ "" 0 0 (5 * Minute).

(** A request URL with an escaped space: [/foo/b%20r]. *)
Definition url_escaped : URL := mkURL "" "" "" "" "/foo/b r" "/foo/b%20r" false "" "".


(** A base URL whose trailing slash is encoded in the raw path. *)
Definition url_encoded_slash : URL := mkURL "http" "" "" "upstream" "/api/" "/api%2F" false "" "".

(** A request that brings an [Authorization] header of its own. *)
Definition request_with_auth : Request :=
  mkRequest "POST" (mkURL "" "" "" "" "/api/v1/receive" "" false "" "") "HTTP/1.1"
            {[ "Authorization" := ["Basic Y2xpZW50OnNlY3JldA=="];
               "Content-Type" := ["application/x-protobuf"] ]}
            "payload" 7 "localhost:8080" "127.0.0.1:51234" "/api/v1/receive".

(** A token of type [mac]. *)
Definition token_mac : Token := mkToken "h480djs93hd8" "mac" "" (Time_Add now0 (10 * Minute)).

(** A token whose type is [basic] written with a long s (U+017F, the
    bytes C5 BF). *)
Definition token_long_s : Token :=
  mkToken "Y2xpZW50" ("ba" +:+ String (ascii_of_N 197) (String (ascii_of_N 191) "ic")) ""
          (Time_Add now0 (10 * Minute)).


(** The first version with its defaults: [--file=token], margin five
    minutes. *)
Definition cfg_v1 : V1.config :=
  V1.mkConfig "token" AllowInfo "logfmt" (5 * Minute) "token-refresher"
              (V1.mkOidcConfig "observatorium" "up" "secret" "http://localhost:4444/")
              (V1.mkServerConfig ":8081").

(** No flag on the command line. *)
Definition no_flags : CommandLine :=
  mkCommandLine None None None None None None None None None None
                None None None None None None None None None None.

(** Only [--upstream.url] on the command line. *)
Definition only_upstream_url (u : string) : CommandLine :=
  mkCommandLine None None None None None None None None None None
                None None None None None (Some u) None None None None.

(** A stand-in for [time.ParseDuration] that knows whole minutes written
    as one digit and [m]. *)
Definition parse_duration_sample (s : string) : string + Duration :=
  if String.eqb s "1m" then inr (1 * Minute)
  else if String.eqb s "2m" then inr (2 * Minute)
  else inl ("time: invalid duration " +:+ s).

(** Path resolution in the working directory of the process: a [./] in
    front of a path changes nothing. *)
Fixpoint clean (p : string) : Entry :=
  match p with
  | String "." (String "/" rest) => clean rest
  | _ => p
  end.

(** The empty working directory, and a directory with one more file. *)
Definition fs_empty : FS := mkFS clean ∅ ∅.

Definition fs_with (path content : string) (fs : FS) : FS :=
  fst (WriteFile WriteOk path content fs).

(** A directory in which [token.tmp] is a hard link to the token file. *)
Definition fs_hard_link : FS :=
  mkFS clean {[ "token" := 1%positive; "token.tmp" := 1%positive ]}
       {[ 1%positive := "old-token" ]}.

Definition start_ok : StartEnv :=
  mkStartEnv (inr "http://localhost:4444/oauth2/token") fs_empty.

Definition state_empty : State := mkState fs_empty [].
Definition state_old_token : State := mkState (fs_with "token" "old-token" fs_empty) [].
Definition state_hard_link : State := mkState fs_hard_link [].

(** Stand-ins for [strings.ToLower] and [strings.TrimSpace] that are
    these functions on ASCII strings. *)
Fixpoint to_lower (s : string) : string :=
  match s with
  | EmptyString => EmptyString
  | String c rest => String (lower_byte c) (to_lower rest)
  end.

Definition is_space (c : ascii) : bool :=
  is_between 9 13 c || Ascii.eqb c " ".

Fixpoint trim_left (s : string) : string :=
  match s with
  | String c rest => if is_space c then trim_left rest else s
  | EmptyString => EmptyString
  end.

Fixpoint trim_right (s : string) : string :=
  match s with
  | EmptyString => EmptyString
  | String c rest =>
      match trim_right rest with
      | EmptyString => if is_space c then EmptyString else String c EmptyString
      | rest' => String c rest'
      end
  end.

Definition trim_space (s : string) : string := trim_right (trim_left s).

End Sample.

Import Go Main Spec.

(* ===================================================================== *)
(** * Properties                                                          *)
(* ===================================================================== *)

(** ** Strings *)

Lemma app_String (c : ascii) (s t : string) : String c s +:+ t = String c (s +:+ t).
Proof. reflexivity. Qed.

Lemma string_app_assoc (s t u : string) : (s +:+ t) +:+ u = s +:+ t +:+ u.
Proof.
  induction s as [|c s IH]; [reflexivity|].
  now rewrite !app_String, IH.
Qed.

Lemma string_app_nil_r (s : string) : s +:+ "" = s.
Proof.
  induction s as [|c s IH]; [reflexivity|].
  now rewrite app_String, IH.
Qed.

Lemma len_app (s t : string) : len (s +:+ t) = (len s + len t)%nat.
Proof.
  induction s as [|c s IH]; [reflexivity|].
  rewrite app_String. simpl. now rewrite IH.
Qed.

Lemma substring_all (s : string) : String.substring 0 (len s) s = s.
Proof. induction s as [|c s IH]; simpl; [reflexivity | now rewrite IH]. Qed.

(** A string starts with a slash exactly when a slash is its first byte. *)
Lemma HasPrefix_slash (b : string) :
  HasPrefix b "/" = true <-> exists r, b = String "/" r.
Proof.
  unfold HasPrefix. destruct b as [|c r]; simpl.
  - split; [discriminate | intros [r Hr]; discriminate].
  - assert (E : String.substring 0 0 r = "") by (destruct r; reflexivity).
    rewrite E. destruct (Ascii.eqb_spec c "/") as [->|Hne].
    + split; eauto.
    + split; [ | intros [r' [= Hc _]]; contradiction].
      destruct (String.eqb_spec (String c "") "/") as [[= ->]|]; [contradiction|discriminate].
Qed.

Lemma HasPrefix_slash_false (b : string) :
  HasPrefix b "/" = false -> trim_leading_slash b = b.
Proof.
  intros H. destruct b as [|c r]; [reflexivity|]. simpl.
  destruct (Ascii.eqb_spec c "/") as [->|Hne]; [|reflexivity].
  assert (HasPrefix (String "/" r) "/" = true) by (apply HasPrefix_slash; eauto).
  congruence.
Qed.

Lemma HasSuffix_one (c : ascii) : HasSuffix (String c "") "/" = Ascii.eqb c "/".
Proof.
  unfold HasSuffix. simpl.
  destruct (Ascii.eqb_spec c "/") as [->|Hne]; [reflexivity|].
  destruct (String.eqb_spec (String c "") "/") as [[= ->]|]; [contradiction|reflexivity].
Qed.

Lemma HasSuffix_cons (c d : ascii) (s : string) :
  HasSuffix (String c (String d s)) "/" = HasSuffix (String d s) "/".
Proof.
  unfold HasSuffix, len. cbn [String.length].
  replace (S (S (String.length s)) - 1)%nat with (S (S (String.length s) - 1))%nat by lia.
  reflexivity.
Qed.

(** What a trailing slash is, in terms of [trim_trailing_slash]. *)
Lemma HasSuffix_slash_true (a : string) :
  HasSuffix a "/" = true -> a = trim_trailing_slash a +:+ "/".
Proof.
  induction a as [|c a IH]; [discriminate|].
  destruct a as [|d a].
  - rewrite HasSuffix_one. intros H. apply Ascii.eqb_eq in H. now subst c.
  - rewrite HasSuffix_cons. intros H.
    change (trim_trailing_slash (String c (String d a)))
      with (String c (trim_trailing_slash (String d a))).
    rewrite app_String. f_equal. now apply IH.
Qed.

Lemma HasSuffix_slash_false (a : string) :
  HasSuffix a "/" = false -> trim_trailing_slash a = a.
Proof.
  induction a as [|c a IH]; [reflexivity|].
  destruct a as [|d a].
  - rewrite HasSuffix_one. intros H. simpl. now rewrite H.
  - rewrite HasSuffix_cons. intros H.
    change (trim_trailing_slash (String c (String d a)))
      with (String c (trim_trailing_slash (String d a))).
    f_equal. now apply IH.
Qed.

Lemma substring_tail (c : ascii) (r : string) :
  String.substring 1 (len (String c r) - 1) (String c r) = r.
Proof.
  unfold len. cbn [String.length String.substring].
  replace (S (String.length r) - 1)%nat with (len r) by (unfold len; lia).
  apply substring_all.
Qed.

Lemma slice_from_1 (c : ascii) (r : string) : slice_from (String c r) 1 = Some r.
Proof.
  unfold slice_from. rewrite substring_tail. reflexivity.
Qed.

(** ** [singleJoiningSlash] *)

(** The function never panics and computes the single-slash join. *)
Lemma singleJoiningSlash_spec (a b : string) :
  singleJoiningSlash a b = Some (single_slash_join a b).
Proof.
  unfold singleJoiningSlash, single_slash_join.
  destruct (HasSuffix a "/") eqn:Ha, (HasPrefix b "/") eqn:Hb; simpl.
  - apply HasPrefix_slash in Hb as [r ->]. rewrite slice_from_1. simpl.
    rewrite (HasSuffix_slash_true a Ha) at 1. f_equal. apply string_app_assoc.
  - rewrite (HasPrefix_slash_false b Hb).
    rewrite (HasSuffix_slash_true a Ha) at 1. f_equal. apply string_app_assoc.
  - apply HasPrefix_slash in Hb as [r ->].
    now rewrite (HasSuffix_slash_false a Ha).
  - now rewrite (HasSuffix_slash_false a Ha), (HasPrefix_slash_false b Hb).
Qed.

(** A string ends with the suffix that was appended to it. *)
Lemma HasSuffix_app (x s : string) : HasSuffix (x +:+ s) s = true.
Proof.
  unfold HasSuffix. rewrite len_app.
  replace (len s <=? len x + len s)%nat with true by (symmetry; apply Nat.leb_le; lia).
  replace (len x + len s - len s)%nat with (len x) by lia. cbn [andb].
  apply String.eqb_eq. induction x as [|c x IH].
  - apply substring_all.
  - rewrite app_String. exact IH.
Qed.

(** After the trimming a slash is left at the end of [a] only when [a]
    ended with two, and at the start of [b] only when [b] started with
    two: the joint of the single-slash join has exactly one slash. *)
Lemma trim_trailing_slash_joint (a : string) :
  HasSuffix a "//" = false -> HasSuffix (trim_trailing_slash a) "/" = false.
Proof.
  intros H. destruct (HasSuffix (trim_trailing_slash a) "/") eqn:T; [|reflexivity].
  destruct (HasSuffix a "/") eqn:Ha.
  - pose proof (HasSuffix_slash_true _ T) as E1.
    pose proof (HasSuffix_slash_true _ Ha) as E2.
    rewrite E1, string_app_assoc in E2.
    change ("/" +:+ "/") with "//" in E2.
    rewrite E2, HasSuffix_app in H. discriminate.
  - rewrite (HasSuffix_slash_false a Ha) in T. congruence.
Qed.

Lemma trim_leading_slash_joint (b : string) :
  HasPrefix b "//" = false -> HasPrefix (trim_leading_slash b) "/" = false.
Proof.
  intros H. destruct (HasPrefix (trim_leading_slash b) "/") eqn:T; [|reflexivity].
  destruct (HasPrefix b "/") eqn:Hb.
  - apply HasPrefix_slash in Hb as [r ->]. cbn in T.
    apply HasPrefix_slash in T as [r' ->].
    unfold HasPrefix in H. cbn in H. destruct r'; discriminate.
  - rewrite (HasPrefix_slash_false b Hb) in T. congruence.
Qed.

Lemma singleJoiningSlash_rule (a b : string) :
  singleJoiningSlash a b = Some (join_by (slash_rule a b) a b).
Proof.
  unfold singleJoiningSlash, slash_rule.
  destruct (HasSuffix a "/") eqn:Ha, (HasPrefix b "/") eqn:Hb; simpl; try reflexivity.
  apply HasPrefix_slash in Hb as [r ->]. rewrite slice_from_1.
  unfold join_by. now rewrite substring_tail.
Qed.

(** ** Escaping of paths *)

(** The two hexadecimal digits written for a byte read back as the byte. *)
Lemma hex_roundtrip (c : ascii) :
  ishex (upperhex (N.shiftr (N_of_ascii c) 4)) = true /\
  ishex (upperhex (N.land (N_of_ascii c) 15)) = true /\
  byte_of (N.lor (N.shiftl (unhex (upperhex (N.shiftr (N_of_ascii c) 4))) 4)
                 (unhex (upperhex (N.land (N_of_ascii c) 15)))) = c.
Proof.
  destruct c as [[] [] [] [] [] [] [] []]; vm_compute; auto.
Qed.

Lemma hex_digits_valid (c : ascii) :
  validEncodedByte (upperhex (N.shiftr (N_of_ascii c) 4)) = true /\
  validEncodedByte (upperhex (N.land (N_of_ascii c) 15)) = true.
Proof.
  destruct c as [[] [] [] [] [] [] [] []]; vm_compute; auto.
Qed.

Lemma shouldEscape_percent (c : ascii) :
  shouldEscape c = false -> Ascii.eqb c "%" = false.
Proof.
  intros H. destruct (Ascii.eqb_spec c "%") as [->|]; [|reflexivity].
  vm_compute in H. discriminate.
Qed.

(** Decoding undoes [escape]. *)
Lemma unescape_escape (p : string) : unescape (escape p) = Some p.
Proof.
  induction p as [|c p IH]; [reflexivity|].
  cbn [escape]. destruct (shouldEscape c) eqn:Hc.
  - destruct (hex_roundtrip c) as (H1 & H2 & H3).
    cbn [unescape]. change (Ascii.eqb "%" "%") with true. cbv iota.
    rewrite H1, H2. cbn [andb]. rewrite IH. cbn. now rewrite H3.
  - cbn [unescape]. rewrite (shouldEscape_percent c Hc), IH. reflexivity.
Qed.

(** What [escape] writes passes [validEncoded]. *)
Lemma validEncoded_escape (p : string) : validEncoded (escape p) = true.
Proof.
  induction p as [|c p IH]; [reflexivity|].
  cbn [escape]. destruct (shouldEscape c) eqn:Hc.
  - destruct (hex_digits_valid c) as [V1 V2].
    cbn [validEncoded]. rewrite V1, V2, IH. reflexivity.
  - cbn [validEncoded]. rewrite IH. unfold validEncodedByte. rewrite Hc.
    destruct (is_one_of "!$&'()*+,;=:@" c), (is_one_of "[]" c), (Ascii.eqb c "%");
      reflexivity.
Qed.

Lemma validEncoded_app (x y : string) :
  validEncoded (x +:+ y) = validEncoded x && validEncoded y.
Proof.
  induction x as [|c x IH]; [reflexivity|].
  rewrite app_String. cbn [validEncoded]. rewrite IH. now rewrite andb_assoc.
Qed.

(** Decoding goes through a concatenation of two well-formed parts. *)
Lemma unescape_app (x y px py : string) :
  unescape x = Some px -> unescape y = Some py ->
  unescape (x +:+ y) = Some (px +:+ py).
Proof.
  intros Hx Hy. remember (len x) as n eqn:Hn.
  assert (Hle : (len x <= n)%nat) by lia. clear Hn.
  revert x px Hx Hle. induction n as [|n IH]; intros x px Hx Hle.
  - destruct x; [|simpl in Hle; lia]. simpl in Hx. injection Hx as <-. exact Hy.
  - destruct x as [|c x]; [simpl in Hx; injection Hx as <-; exact Hy|].
    rewrite app_String. cbn [unescape] in Hx |- *.
    destruct (Ascii.eqb c "%").
    + destruct x as [|h1 [|h2 x']]; try discriminate.
      rewrite !app_String.
      destruct (ishex h1 && ishex h2); [|discriminate].
      destruct (unescape x') as [r|] eqn:Hr; [|discriminate].
      cbn in Hx. injection Hx as <-.
      rewrite (IH x' r Hr) by (simpl in Hle; unfold len in *; simpl in Hle; lia).
      reflexivity.
    + destruct (unescape x) as [r|] eqn:Hr; [|discriminate].
      cbn in Hx. injection Hx as <-.
      rewrite (IH x r Hr) by (unfold len in *; simpl in Hle; lia).
      reflexivity.
Qed.

Lemma unescape_slash (r p : string) :
  unescape (String "/" r) = Some p ->
  exists r', p = String "/" r' /\ unescape r = Some r'.
Proof.
  cbn [unescape]. change (Ascii.eqb "/" "%") with false. cbv iota.
  destruct (unescape r) as [r'|]; [|discriminate].
  cbn. intros [= <-]. eauto.
Qed.

(** [EscapedPath] always is a valid encoding of [Path]. *)
Lemma EscapedPath_unescape (u : URL) : unescape (EscapedPath u) = Some (Path u).
Proof.
  unfold EscapedPath.
  destruct (negb (String.eqb (RawPath u) "") && validEncoded (RawPath u)
            && bool_decide (unescape (RawPath u) = Some (Path u))) eqn:E.
  - apply andb_prop in E as [_ E]. now apply bool_decide_eq_true in E.
  - destruct (String.eqb_spec (Path u) "*") as [->|]; [reflexivity|].
    apply unescape_escape.
Qed.

Lemma EscapedPath_valid (u : URL) : validEncoded (EscapedPath u) = true.
Proof.
  unfold EscapedPath.
  destruct (negb (String.eqb (RawPath u) "") && validEncoded (RawPath u)
            && bool_decide (unescape (RawPath u) = Some (Path u))) eqn:E.
  - apply andb_prop in E as [E _]. now apply andb_prop in E as [_ E].
  - destruct (String.eqb_spec (Path u) "*") as [_|_]; [reflexivity|].
    apply validEncoded_escape.
Qed.

(** The escaped path starts with a slash exactly when the path does, so
    the slice [b.Path[1:]] of [joinURLPath] is in range. *)
Lemma EscapedPath_slash (u : URL) (r : string) :
  EscapedPath u = String "/" r ->
  exists r', Path u = String "/" r' /\ unescape r = Some r'.
Proof.
  intros H. apply unescape_slash. rewrite <- H. apply EscapedPath_unescape.
Qed.

(** ** [joinURLPath] *)

(** The result of [joinURLPath] in its second branch. *)
Lemma joinURLPath_escaped (a b : URL) :
  String.eqb (RawPath a) "" && String.eqb (RawPath b) "" = false ->
  joinURLPath a b =
    Some (join_by (slash_rule (EscapedPath a) (EscapedPath b)) (Path a) (Path b),
          join_by (slash_rule (EscapedPath a) (EscapedPath b))
                  (EscapedPath a) (EscapedPath b)).
Proof.
  intros E. unfold joinURLPath, slash_rule. rewrite E.
  destruct (HasSuffix (EscapedPath a) "/") eqn:Ha,
           (HasPrefix (EscapedPath b) "/") eqn:Hb; cbn [andb negb]; try reflexivity.
  apply HasPrefix_slash in Hb as [r Hb].
  destruct (EscapedPath_slash b r Hb) as (r' & Hp & _).
  rewrite Hb, Hp, !slice_from_1. unfold join_by. now rewrite !substring_tail.
Qed.

(** In the second branch the raw path is a valid encoding of the path. *)
Lemma joinURLPath_consistent (a b : URL) (path rawpath : string) :
  String.eqb (RawPath a) "" && String.eqb (RawPath b) "" = false ->
  joinURLPath a b = Some (path, rawpath) ->
  validEncoded rawpath = true /\ unescape rawpath = Some path.
Proof.
  intros E. rewrite (joinURLPath_escaped a b E). intros [= <- <-].
  pose proof (EscapedPath_unescape a) as Ua.
  pose proof (EscapedPath_unescape b) as Ub.
  pose proof (EscapedPath_valid a) as Va.
  pose proof (EscapedPath_valid b) as Vb.
  unfold slash_rule.
  destruct (HasSuffix (EscapedPath a) "/") eqn:Ha,
           (HasPrefix (EscapedPath b) "/") eqn:Hb; unfold join_by.
  - apply HasPrefix_slash in Hb as [r Hb].
    destruct (EscapedPath_slash b r Hb) as (r' & Hp & Hr).
    rewrite Hb in *. rewrite Hp, !substring_tail. split.
    + rewrite validEncoded_app, Va. cbn [validEncoded] in Vb.
      now apply andb_prop in Vb as [_ ->].
    + now apply unescape_app.
  - split; [now rewrite validEncoded_app, Va, Vb | now apply unescape_app].
  - split; [now rewrite validEncoded_app, Va, Vb | now apply unescape_app].
  - split.
    + now rewrite !validEncoded_app, Va, Vb.
    + apply unescape_app; [exact Ua|].
      change ("/" +:+ EscapedPath b) with (String "/" (EscapedPath b)).
      change ("/" +:+ Path b) with (String "/" (Path b)).
      cbn [unescape]. change (Ascii.eqb "/" "%") with false. cbv iota.
      now rewrite Ub.
Qed.

Lemma app_nonempty (s t : string) : s +:+ t = "" -> s = "" /\ t = "".
Proof. destruct s; [now cbn | discriminate]. Qed.

(** In the second branch the raw path is never empty, so the joined URL
    reports it as its escaped path. *)
Lemma joinURLPath_escaped_path (a b u : URL) (path rawpath : string) :
  String.eqb (RawPath a) "" && String.eqb (RawPath b) "" = false ->
  joinURLPath a b = Some (path, rawpath) ->
  EscapedPath (set_Paths path rawpath u) = rawpath.
Proof.
  intros E J. destruct (joinURLPath_consistent a b path rawpath E J) as [V U].
  assert (N : rawpath <> "").
  { rewrite (joinURLPath_escaped a b E) in J. injection J as _ <-.
    unfold slash_rule, join_by.
    destruct (HasSuffix (EscapedPath a) "/") eqn:Ha,
             (HasPrefix (EscapedPath b) "/") eqn:Hb;
      intros H; apply app_nonempty in H as [H1 H2].
    - rewrite H1 in Ha. discriminate.
    - rewrite H1 in Ha. discriminate.
    - rewrite H2 in Hb. discriminate.
    - discriminate. }
  unfold EscapedPath. cbn [RawPath Path set_Paths].
  rewrite V. apply String.eqb_neq in N. rewrite N. cbn [negb andb].
  now rewrite bool_decide_eq_true_2.
Qed.

(** What is left of a path after the trimming of one slash. *)
Lemma trim_trailing_slash_cases (a : string) :
  a = trim_trailing_slash a \/ a = trim_trailing_slash a +:+ "/".
Proof.
  destruct (HasSuffix a "/") eqn:H.
  - right. now apply HasSuffix_slash_true.
  - left. symmetry. now apply HasSuffix_slash_false.
Qed.

Lemma trim_leading_slash_cases (b : string) :
  b = trim_leading_slash b \/ b = "/" +:+ trim_leading_slash b.
Proof.
  destruct b as [|c r]; [now left|]. cbn.
  destruct (Ascii.eqb_spec c "/") as [->|Hne]; [now right | now left].
Qed.

(** C6, as stated, fails for a path that brings two slashes to the
    joint: one slash of each side is merged into the slash of the
    joint, the others stay, and the joined path has a double slash at
    the joint. *)
Lemma join_keeps_second_slash :
  singleJoiningSlash "/api/v1" "//metrics" = Some "/api/v1//metrics" /\
  singleJoiningSlash "/api/v1//" "metrics" = Some "/api/v1//metrics" /\
  joinURLPath (path_url "/api/v1") (path_url "//metrics") = Some ("/api/v1//metrics", "") /\
  RawPath (path_url "/api/v1") = "" /\ RawPath (path_url "//metrics") = "".
Proof. vm_compute. repeat split. Qed.

(** C6 (amended): the three joins of the specification hold, for
    [singleJoiningSlash] and for [joinURLPath] on URLs with these paths.
    [singleJoiningSlash] never panics and is the single-slash join: its
    result is what is left of [a] without one trailing slash, a slash,
    and what is left of [b] without one leading slash, so that a slash
    is never missing at the joint; the joint has that one slash only
    (what is left of [a] does not end with a slash, what is left of [b]
    does not start with one) whenever [a] does not end with two slashes
    and [b] does not start with two.  When neither URL has a [RawPath],
    [joinURLPath] is that join of the two paths and the raw path stays
    empty.  Otherwise one slash rule, the one that the escaped paths
    call for, joins the paths and the escaped paths alike: the raw path
    is the single-slash join of the escaped paths, it is a valid
    encoding that decodes to the joined path, and a URL with the two
    results reports the raw path as its escaped path. *)
Theorem joinURLPath_single_slash (a b : URL) :
  (singleJoiningSlash "/api/v1" "/metrics" = Some "/api/v1/metrics" /\
   singleJoiningSlash "/api/v1/" "/metrics" = Some "/api/v1/metrics" /\
   singleJoiningSlash "/api/v1" "metrics" = Some "/api/v1/metrics") /\
  (joinURLPath (path_url "/api/v1") (path_url "/metrics") = Some ("/api/v1/metrics", "") /\
   joinURLPath (path_url "/api/v1/") (path_url "/metrics") = Some ("/api/v1/metrics", "") /\
   joinURLPath (path_url "/api/v1") (path_url "metrics") = Some ("/api/v1/metrics", "")) /\
  singleJoiningSlash (Path a) (Path b) = Some (single_slash_join (Path a) (Path b)) /\
  (exists a' b',
     singleJoiningSlash (Path a) (Path b) = Some (a' +:+ "/" +:+ b') /\
     (Path a = a' \/ Path a = a' +:+ "/") /\
     (Path b = b' \/ Path b = "/" +:+ b') /\
     (HasSuffix (Path a) "//" = false -> HasSuffix a' "/" = false) /\
     (HasPrefix (Path b) "//" = false -> HasPrefix b' "/" = false)) /\
  (RawPath a = "" -> RawPath b = "" ->
   joinURLPath a b = Some (single_slash_join (Path a) (Path b), "")) /\
  (~ (RawPath a = "" /\ RawPath b = "") ->
   let rule := slash_rule (EscapedPath a) (EscapedPath b) in
   let path := join_by rule (Path a) (Path b) in
   let rawpath := join_by rule (EscapedPath a) (EscapedPath b) in
   joinURLPath a b = Some (path, rawpath) /\
   rawpath = single_slash_join (EscapedPath a) (EscapedPath b) /\
   validEncoded rawpath = true /\
   unescape rawpath = Some path /\
   (forall u, EscapedPath (set_Paths path rawpath u) = rawpath)).
Proof.
  split; [repeat split|]. split; [repeat split|].
  split; [apply singleJoiningSlash_spec|]. split; [|split].
  - exists (trim_trailing_slash (Path a)), (trim_leading_slash (Path b)).
    split; [apply singleJoiningSlash_spec|].
    split; [apply trim_trailing_slash_cases|].
    split; [apply trim_leading_slash_cases|].
    split; [apply trim_trailing_slash_joint | apply trim_leading_slash_joint].
  - intros Ha Hb. unfold joinURLPath. rewrite Ha, Hb. cbn [String.eqb andb].
    now rewrite singleJoiningSlash_spec.
  - intros Hne.
    assert (E : String.eqb (RawPath a) "" && String.eqb (RawPath b) "" = false).
    { destruct (String.eqb_spec (RawPath a) ""), (String.eqb_spec (RawPath b) "");
        try reflexivity. exfalso. now apply Hne. }
    cbv zeta. split; [now apply joinURLPath_escaped|]. split.
    + pose proof (singleJoiningSlash_rule (EscapedPath a) (EscapedPath b)) as H1.
      rewrite singleJoiningSlash_spec in H1. now injection H1.
    + pose proof (joinURLPath_escaped a b E) as J.
      destruct (joinURLPath_consistent a b _ _ E J) as [V U].
      split; [exact V|]. split; [exact U|].
      intros u. exact (joinURLPath_escaped_path a b u _ _ E J).
Qed.

Lemma joinURLPath_single_slash_witness :
  joinURLPath Sample.upstream_url (path_url "/foo/bar") =
    Some ("/api/metrics/v1/test/foo/bar", "") /\
  joinURLPath Sample.upstream_url Sample.url_escaped =
    Some ("/api/metrics/v1/test/foo/b r", "/api/metrics/v1/test/foo/b%20r") /\
  unescape "/api/metrics/v1/test/foo/b%20r" = Some "/api/metrics/v1/test/foo/b r".
Proof.
  split; [|split].
  - exact (proj1 (proj2 (proj2 (proj2 (proj2
      (joinURLPath_single_slash Sample.upstream_url (path_url "/foo/bar"))))))
      eq_refl eq_refl).
  - refine (proj1 (proj2 (proj2 (proj2 (proj2 (proj2
      (joinURLPath_single_slash Sample.upstream_url Sample.url_escaped))))) _)).
    intros [_ H]. discriminate H.
  - refine (proj1 (proj2 (proj2 (proj2 (proj2 (proj2 (proj2 (proj2 (proj2
      (joinURLPath_single_slash Sample.upstream_url Sample.url_escaped))))) _))))).
    intros [_ H]. discriminate H.
Defined.

(** ** Durations *)

Lemma wrap64_in_range (z : Z) : in_int64 z -> wrap64 z = z.
Proof.
  unfold in_int64, wrap64, minInt64, maxInt64. intros H.
  rewrite Z.mod_small by lia. lia.
Qed.

Lemma Time_Sub_in_range (t u : Time) :
  in_int64 (ns t - ns u) -> Time_Sub t u = ns t - ns u.
Proof.
  unfold in_int64, Time_Sub, minDuration, maxDuration. intros [H1 H2].
  apply Z.leb_le in H1, H2. now rewrite H1, H2.
Qed.

(** The saturated cases of [Sub]. *)
Lemma Time_Sub_saturates (t u : Time) :
  (ns t - ns u < minInt64 -> Time_Sub t u = minDuration) /\
  (maxInt64 < ns t - ns u -> Time_Sub t u = maxDuration).
Proof.
  unfold Time_Sub, Time_Before, minDuration, maxDuration, minInt64, maxInt64. split; intros H.
  - replace (- 2 ^ 63 <=? ns t - ns u) with false by (symmetry; apply Z.leb_gt; lia).
    cbn [andb]. now replace (ns t <? ns u) with true by (symmetry; apply Z.ltb_lt; lia).
  - replace (ns t - ns u <=? 2 ^ 63 - 1) with false by (symmetry; apply Z.leb_gt; lia).
    rewrite andb_false_r.
    now replace (ns t <? ns u) with false by (symmetry; apply Z.ltb_ge; lia).
Qed.

(** ** Logging *)

(** An entry of level error passes every filter that [parseFlags] can
    install. *)
Lemma Log_error (cfg : config) (kvs : list (string * LogValue)) (st : State) :
  Log cfg LevelError kvs st =
  mkState (files st) (logged st ++ [mkLogEntry LevelError kvs]).
Proof. unfold Log. now destruct (logLevel cfg). Qed.

(** ** The file system *)

Lemma max_list_ge (l : list positive) (i : positive) :
  i ∈ l -> (i <= foldr Pos.max 1 l)%positive.
Proof.
  induction l as [|j l IH]; [intros H; now apply elem_of_nil in H|].
  intros H. apply elem_of_cons in H as [-> | H]; cbn; [lia | specialize (IH H); lia].
Qed.

(** The number of a new file is the number of no file that has a link. *)
Lemma alloc_fresh (fs : FS) (e : Entry) (i : Ino) :
  links fs !! e = Some i -> i <> alloc fs.
Proof.
  intros H. unfold alloc.
  assert (L : i ∈ snd <$> map_to_list (links fs)).
  { apply list_elem_of_fmap. exists (e, i). split; [reflexivity|].
    now apply elem_of_map_to_list. }
  apply max_list_ge in L. intros E. rewrite E in L.
  apply (Pos.lt_irrefl (foldr Pos.max 1%positive (snd <$> map_to_list (links fs)))).
  eapply Pos.lt_le_trans; [apply Pos.lt_succ_diag_r | exact L].
Qed.

Lemma truncate_and_write_path_entry (name bytes : string) (fs : FS) :
  path_entry (truncate_and_write name bytes fs) = path_entry fs.
Proof. unfold truncate_and_write. now destruct (links fs !! path_entry fs name). Qed.

(** After the write the path reads as what was written. *)
Lemma truncate_and_write_read (name bytes : string) (fs : FS) :
  ReadFile name (truncate_and_write name bytes fs) = Some bytes.
Proof.
  unfold ReadFile, truncate_and_write.
  destruct (links fs !! path_entry fs name) as [i|] eqn:L; cbn.
  - rewrite L. cbn. apply lookup_insert_eq.
  - rewrite lookup_insert_eq. cbn. apply lookup_insert_eq.
Qed.

(** The write leaves every link that existed, and makes at most the one
    of its path. *)
Lemma truncate_and_write_links (name bytes : string) (fs : FS) (e : Entry) :
  e <> path_entry fs name \/ is_Some (links fs !! e) ->
  links (truncate_and_write name bytes fs) !! e = links fs !! e.
Proof.
  unfold truncate_and_write. intros H.
  destruct (links fs !! path_entry fs name) as [i|] eqn:L; cbn; [reflexivity|].
  destruct H as [H | [j H]].
  - now rewrite lookup_insert_ne.
  - destruct (decide (e = path_entry fs name)) as [->|Hne]; [congruence|].
    now rewrite lookup_insert_ne.
Qed.

Lemma truncate_and_write_linked (name bytes : string) (fs : FS) :
  exists i, links (truncate_and_write name bytes fs) !! path_entry fs name = Some i /\
            (links fs !! path_entry fs name = Some i \/
             links fs !! path_entry fs name = None /\ i = alloc fs).
Proof.
  unfold truncate_and_write.
  destruct (links fs !! path_entry fs name) as [i|] eqn:L; cbn.
  - exists i. auto.
  - exists (alloc fs). rewrite lookup_insert_eq. auto.
Qed.

(** The write changes the bytes of the file of its path only. *)
Lemma truncate_and_write_data (name bytes : string) (fs : FS) (i j : Ino) :
  links (truncate_and_write name bytes fs) !! path_entry fs name = Some i ->
  j <> i ->
  data (truncate_and_write name bytes fs) !! j = data fs !! j.
Proof.
  unfold truncate_and_write.
  destruct (links fs !! path_entry fs name) as [k|] eqn:L; cbn.
  - rewrite L. intros [= <-] H. now rewrite lookup_insert_ne.
  - rewrite lookup_insert_eq. intros [= <-] H. now rewrite lookup_insert_ne.
Qed.

(** A path that does not lead to the file that is written reads as
    before, and still does not lead to that file. *)
Lemma truncate_and_write_frame (name bytes : string) (fs : FS) (p : string) :
  ~ same_file fs name p ->
  ReadFile p (truncate_and_write name bytes fs) = ReadFile p fs /\
  ~ same_file (truncate_and_write name bytes fs) name p.
Proof.
  intros N.
  assert (Ne : path_entry fs p <> path_entry fs name).
  { intros E. apply N. left. now symmetry. }
  destruct (truncate_and_write_linked name bytes fs) as (i & Li & Hi).
  pose proof (truncate_and_write_links name bytes fs (path_entry fs p) (or_introl Ne)) as Lp.
  split.
  - unfold ReadFile. rewrite truncate_and_write_path_entry, Lp.
    destruct (links fs !! path_entry fs p) as [j|] eqn:Lj; [cbn|reflexivity].
    apply (truncate_and_write_data name bytes fs i j Li).
    intros ->. destruct Hi as [Hi | [_ ->]].
    + apply N. right. eauto.
    + now apply (alloc_fresh fs _ _ Lj).
  - unfold same_file. rewrite !truncate_and_write_path_entry, Lp, Li.
    intros [E | (j & [= <-] & Lj)]; [now apply Ne|].
    destruct Hi as [Hi | [_ ->]].
    + apply N. right. eauto.
    + now apply (alloc_fresh fs _ _ Lj).
Qed.

Lemma WriteFile_path_entry (o : WriteOutcome) (name bytes : string) (fs : FS) :
  path_entry (fst (WriteFile o name bytes fs)) = path_entry fs.
Proof. destruct o; cbn; try reflexivity; apply truncate_and_write_path_entry. Qed.

Lemma WriteFile_frame (o : WriteOutcome) (name bytes : string) (fs : FS) (p : string) :
  ~ same_file fs name p ->
  ReadFile p (fst (WriteFile o name bytes fs)) = ReadFile p fs /\
  ~ same_file (fst (WriteFile o name bytes fs)) name p.
Proof.
  intros N. destruct o; cbn; [| now split |]; now apply truncate_and_write_frame.
Qed.

Lemma Rename_path_entry (o : RenameOutcome) (oldpath newpath : string) (fs : FS) :
  path_entry (fst (Rename o oldpath newpath fs)) = path_entry fs.
Proof.
  unfold Rename. destruct o; [|reflexivity].
  destruct (links fs !! path_entry fs oldpath); [|reflexivity].
  now destruct (bool_decide _).
Qed.

(** A rename never changes the bytes of a file. *)
Lemma Rename_data (o : RenameOutcome) (oldpath newpath : string) (fs : FS) :
  data (fst (Rename o oldpath newpath fs)) = data fs.
Proof.
  unfold Rename. destruct o; [|reflexivity].
  destruct (links fs !! path_entry fs oldpath); [|reflexivity].
  now destruct (bool_decide _).
Qed.

(** A rename changes the links of its two paths at most. *)
Lemma Rename_links (o : RenameOutcome) (oldpath newpath : string) (fs : FS) (e : Entry) :
  e <> path_entry fs oldpath -> e <> path_entry fs newpath ->
  links (fst (Rename o oldpath newpath fs)) !! e = links fs !! e.
Proof.
  intros H1 H2. unfold Rename. destruct o; [|reflexivity].
  destruct (links fs !! path_entry fs oldpath); [|reflexivity].
  destruct (bool_decide _); [reflexivity|]. cbn.
  now rewrite lookup_insert_ne, lookup_delete_ne by congruence.
Qed.


(** After a rename that succeeded the new path leads to the file that
    the old path led to. *)
Lemma Rename_moved (oldpath newpath : string) (fs : FS) (i : Ino) :
  links fs !! path_entry fs oldpath = Some i ->
  snd (Rename RenameOk oldpath newpath fs) = None /\
  links (fst (Rename RenameOk oldpath newpath fs)) !! path_entry fs newpath = Some i.
Proof.
  intros L. unfold Rename. rewrite L.
  destruct (bool_decide _) eqn:B; cbn.
  - apply bool_decide_eq_true in B. auto.
  - now rewrite lookup_insert_eq.
Qed.

(** After a rename between two different files the old path names
    nothing. *)
Lemma Rename_removed (oldpath newpath : string) (fs : FS) :
  ~ same_file fs oldpath newpath ->
  is_Some (links fs !! path_entry fs oldpath) ->
  links (fst (Rename RenameOk oldpath newpath fs)) !! path_entry fs oldpath = None.
Proof.
  intros N [i L]. unfold Rename. rewrite L.
  rewrite bool_decide_eq_false_2 by (intros H; apply N; right; eauto). cbn.
  rewrite lookup_insert_ne by (intros E; apply N; left; now symmetry).
  apply lookup_delete_eq.
Qed.

(** ** Publishing *)

Lemma publish_path_entry (cfg : config) (wo : WriteOutcome) (ro : RenameOutcome)
  (t : Token) (fs : FS) :
  path_entry (fst (publish cfg wo ro t fs)) = path_entry fs.
Proof.
  unfold publish.
  pose proof (WriteFile_path_entry wo (tempFile cfg) (AccessToken t) fs) as W.
  destruct (WriteFile wo (tempFile cfg) (AccessToken t) fs) as [fs1 [err|]]; [exact W|].
  pose proof (Rename_path_entry ro (tempFile cfg) (file cfg) fs1) as R.
  destruct (Rename ro (tempFile cfg) (file cfg) fs1) as [fs2 [err|]]; cbn in *; congruence.
Qed.

(** The publish in terms of its two steps. *)
Lemma publish_steps (cfg : config) (ro : RenameOutcome) (t : Token) (fs : FS) :
  let fs1 := truncate_and_write (tempFile cfg) (AccessToken t) fs in
  fst (publish cfg WriteOk ro t fs) = fst (Rename ro (tempFile cfg) (file cfg) fs1) /\
  (snd (publish cfg WriteOk ro t fs) = None <->
   snd (Rename ro (tempFile cfg) (file cfg) fs1) = None).
Proof.
  cbv zeta. unfold publish. cbn [WriteFile].
  destruct (Rename ro (tempFile cfg) (file cfg) _) as [fs2 [err|]]; cbn; split;
    try reflexivity; split; congruence.
Qed.

(** A publish succeeds exactly when both steps do. *)
Lemma publish_success (cfg : config) (wo : WriteOutcome) (ro : RenameOutcome)
  (t : Token) (fs : FS) :
  snd (publish cfg wo ro t fs) = None <-> wo = WriteOk /\ ro = RenameOk.
Proof.
  destruct wo as [|err|n err]; [| unfold publish; cbn; split; [discriminate | now intros [? _]]..].
  rewrite (proj2 (publish_steps cfg ro t fs)).
  destruct (truncate_and_write_linked (tempFile cfg) (AccessToken t) fs) as (i & Li & _).
  rewrite <- (truncate_and_write_path_entry (tempFile cfg) (AccessToken t) fs) in Li.
  destruct ro as [|err].
  - split; [auto|]. intros _. now apply (Rename_moved _ _ _ i).
  - cbn. split; [discriminate | now intros [_ ?]].
Qed.



(** A publish, failed or not, changes nothing for a path that names
    another entry than the token path and does not lead to the
    temporary file; such a path stays apart from the temporary file. *)
Lemma publish_frame (cfg : config) (wo : WriteOutcome) (ro : RenameOutcome)
  (t : Token) (fs : FS) (p : string) :
  path_entry fs p <> path_entry fs (file cfg) ->
  ~ same_file fs (tempFile cfg) p ->
  ReadFile p (fst (publish cfg wo ro t fs)) = ReadFile p fs /\
  ~ same_file (fst (publish cfg wo ro t fs)) (tempFile cfg) p.
Proof.
  intros Hf N.
  assert (W : forall bytes,
            let fs1 := truncate_and_write (tempFile cfg) bytes fs in
            forall ro',
              ReadFile p (fst (Rename ro' (tempFile cfg) (file cfg) fs1)) = ReadFile p fs /\
              ~ same_file (fst (Rename ro' (tempFile cfg) (file cfg) fs1)) (tempFile cfg) p).
  { intros bytes fs1 ro'.
    destruct (truncate_and_write_frame (tempFile cfg) bytes fs p N) as [R1 N1].
    fold fs1 in R1, N1.
    assert (E1 : path_entry fs1 = path_entry fs) by apply truncate_and_write_path_entry.
    assert (Nt : path_entry fs1 p <> path_entry fs1 (tempFile cfg)).
    { intros E. apply N1. left. now symmetry. }
    assert (Lp : links (fst (Rename ro' (tempFile cfg) (file cfg) fs1)) !! path_entry fs1 p
                 = links fs1 !! path_entry fs1 p).
    { apply Rename_links; [exact Nt | now rewrite E1]. }
    split.
    - rewrite <- R1. unfold ReadFile.
      now rewrite Rename_path_entry, Lp, Rename_data.
    - unfold same_file. rewrite !Rename_path_entry, Lp.
      intros [E | (i & Lt & Li)]; [now apply Nt|].
      apply N1. right. exists i. split; [|exact Li].
      revert Lt. unfold Rename. destruct ro'; [|now cbn].
      destruct (links fs1 !! path_entry fs1 (tempFile cfg)) as [j|] eqn:Lj;
        [|cbn; now rewrite Lj].
      destruct (bool_decide _) eqn:B; cbn; [now rewrite Lj|].
      destruct (decide (path_entry fs1 (tempFile cfg) = path_entry fs1 (file cfg))) as [E|E].
      + exfalso. apply bool_decide_eq_false in B. apply B. now rewrite <- E.
      + rewrite lookup_insert_ne by congruence. now rewrite lookup_delete_eq. }
  destruct wo as [|err|n err].
  - rewrite (proj1 (publish_steps cfg ro t fs)). apply W.
  - now split.
  - unfold publish. cbn. now apply truncate_and_write_frame.
Qed.


(** ** One iteration of the loop *)

Lemma cycle_fetch_error (cfg : config) (e : CycleEnv) (st : State) (err : string) :
  fetched e = inl err ->
  cycle cfg e st =
  (mkState (files st)
     (logged st ++ [mkLogEntry LevelError
                      [("msg", VStr "failed to get token"); ("err", VStr err)]]),
   retryInterval).
Proof. intros H. unfold cycle. now rewrite H, Log_error. Qed.

Lemma cycle_invalid (cfg : config) (e : CycleEnv) (st : State) (t : Token) :
  fetched e = inr t -> Token_Valid t (now_valid e) = false ->
  cycle cfg e st =
  (mkState (files st)
     (logged st ++ [mkLogEntry LevelError
                      [("msg", VStr "token is invalid"); ("exp", VTime (Expiry t))]]),
   retryInterval).
Proof. intros H V. unfold cycle. now rewrite H, V, Log_error. Qed.

Lemma cycle_publish_failed (cfg : config) (e : CycleEnv) (st : State) (t : Token)
  (fs' : FS) (msg err : string) :
  fetched e = inr t -> Token_Valid t (now_valid e) = true ->
  publish cfg (write_outcome e) (rename_outcome e) t (files st) = (fs', Some (msg, err)) ->
  cycle cfg e st =
  (mkState fs'
     (logged st ++ [mkLogEntry LevelError [("msg", VStr msg); ("err", VStr err)]]),
   retryInterval).
Proof. intros H V P. unfold cycle. rewrite H, V, P. cbn [negb]. now rewrite Log_error. Qed.

Lemma cycle_published (cfg : config) (e : CycleEnv) (st : State) (t : Token) :
  fetched e = inr t -> Token_Valid t (now_valid e) = true ->
  snd (publish cfg (write_outcome e) (rename_outcome e) t (files st)) = None ->
  cycle cfg e st =
  (mkState (fst (publish cfg (write_outcome e) (rename_outcome e) t (files st)))
           (logged st),
   Duration_sub (Time_Sub (Expiry t) (now_sched e)) (margin cfg)).
Proof.
  intros H V P. unfold cycle. rewrite H, V. cbn [negb].
  destruct (publish cfg (write_outcome e) (rename_outcome e) t (files st)) as [fs' r].
  cbn in P. now subst r.
Qed.

(** ** The loop *)

Lemma loop_continue (cfg : config) (e : CycleEnv) (rest : list CycleEnv) (st : State) :
  ctx_done e = false ->
  loop cfg (e :: rest) st =
  mkRun (final (loop cfg rest (fst (cycle cfg e st))))
        (timer_wait (snd (cycle cfg e st)) :: slept (loop cfg rest (fst (cycle cfg e st))))
        (S (fetches (loop cfg rest (fst (cycle cfg e st)))))
        (exit (loop cfg rest (fst (cycle cfg e st)))).
Proof.
  intros H. cbn [loop]. destruct (cycle cfg e st) as [st' d]. now rewrite H.
Qed.

Lemma loop_return (cfg : config) (e : CycleEnv) (rest : list CycleEnv) (st : State) :
  ctx_done e = true ->
  loop cfg (e :: rest) st = mkRun (fst (cycle cfg e st)) [] 1 Returned.
Proof.
  intros H. cbn [loop]. destruct (cycle cfg e st) as [st' d]. now rewrite H.
Qed.


(** Without cancellation every answer of the script is consumed by a
    fetch and followed by a completed wait: the loop is still running
    at the end of any script. *)
Lemma loop_keeps_running (cfg : config) (envs : list CycleEnv) (st : State) :
  (forall e, In e envs -> ctx_done e = false) ->
  exit (loop cfg envs st) = Running /\
  fetches (loop cfg envs st) = length envs /\
  length (slept (loop cfg envs st)) = length envs.
Proof.
  revert st. induction envs as [|e rest IH]; intros st H.
  - now cbn.
  - rewrite loop_continue by (apply H; now left). cbn.
    destruct (IH (fst (cycle cfg e st))) as (H1 & H2 & H3).
    { intros e' Hin. apply H. now right. }
    now rewrite H1, H2, H3.
Qed.

(** Two failed fetches, then the context is cancelled during the third
    iteration: three fetches, two waits of the retry interval, and the
    loop has returned. *)
Example loop_cancel_scenario :
  let r := loop Sample.cfg_file
             [Sample.world_fetch_error; Sample.world_fetch_error;
              Sample.world_cancelled Sample.world_fetch_error;
              Sample.world_fetch_error]
             Sample.state_empty in
  exit r = Returned /\ fetches r = 3%nat /\ slept r = [retryInterval; retryInterval] /\
  length (logged (final r)) = 3%nat.
Proof. vm_compute. repeat split. Qed.

(** ** The schedule after a publish *)

(** The scenario of the specification: a token that expires in ten
    minutes is refreshed after five, one that expires in thirty seconds
    at once. *)
Example wake_scenario :
  timer_wait (snd (cycle Sample.cfg_file
                     (Sample.world_ok (Sample.token_expiring_in (10 * Minute)))
                     Sample.state_empty)) = 5 * Minute /\
  timer_wait (snd (cycle Sample.cfg_file
                     (Sample.world_ok (Sample.token_expiring_in (30 * Second)))
                     Sample.state_empty)) = 0.
Proof. split; vm_compute; reflexivity. Qed.

(** C1, as stated, fails for a token without expiry.  Such a token is
    valid and is published; [Sub] saturates at the smallest duration,
    the subtraction of the margin wraps around, and the timer is set to
    about 292 years, where the claim has the loop fetch again at once. *)
Lemma next_wake_fails_without_expiry :
  let e := Sample.world_ok Sample.token_no_expiry in
  let r := cycle Sample.cfg_file e Sample.state_empty in
  fetched e = inr Sample.token_no_expiry /\
  Token_Valid Sample.token_no_expiry (now_valid e) = true /\
  ReadFile (file Sample.cfg_file) (files (fst r)) = Some (AccessToken Sample.token_no_expiry) /\
  next_wake (Expiry Sample.token_no_expiry) (now_sched e) (margin Sample.cfg_file) = 0 /\
  timer_wait (snd r) = 2 ^ 63 - 5 * Minute /\
  timer_wait (snd r) <> next_wake (Expiry Sample.token_no_expiry) (now_sched e)
                                  (margin Sample.cfg_file).
Proof. vm_compute. repeat split; discriminate. Qed.

(** C1 (amended): after a valid token has been published, [d] is the
    expiry minus now minus the margin in the arithmetic of [Duration]
    ([Sub] saturates, the subtraction of the margin wraps), the timer
    waits for [d] with a floor of zero, so the next fetch comes at once
    when [d] is zero or negative; and whenever expiry minus now and
    expiry minus now minus margin fit in 64 bits, the wait is the
    integer value expiry - now - margin with a floor of zero. *)
Theorem next_wake_after_publish (cfg : config) (e : CycleEnv) (st : State) (t : Token) :
  fetched e = inr t ->
  Token_Valid t (now_valid e) = true ->
  snd (publish cfg (write_outcome e) (rename_outcome e) t (files st)) = None ->
  let d := snd (cycle cfg e st) in
  d = Duration_sub (Time_Sub (Expiry t) (now_sched e)) (margin cfg) /\
  (forall rest, ctx_done e = false ->
     slept (loop cfg (e :: rest) st) =
     Z.max 0 d :: slept (loop cfg rest (fst (cycle cfg e st)))) /\
  (d <= 0 -> timer_wait d = 0) /\
  (in_int64 (ns (Expiry t) - ns (now_sched e)) ->
   in_int64 (ns (Expiry t) - ns (now_sched e) - margin cfg) ->
   timer_wait d = next_wake (Expiry t) (now_sched e) (margin cfg) /\
   (ns (Expiry t) - ns (now_sched e) - margin cfg <= 0 -> timer_wait d = 0)).
Proof.
  intros F V P d. subst d. rewrite (cycle_published cfg e st t F V P). cbn [snd fst].
  split; [reflexivity|]. split; [|split].
  - intros rest D. rewrite loop_continue by exact D.
    rewrite (cycle_published cfg e st t F V P). reflexivity.
  - unfold timer_wait. lia.
  - intros R1 R2. unfold Duration_sub. rewrite (Time_Sub_in_range _ _ R1).
    rewrite (wrap64_in_range _ R2). unfold timer_wait, next_wake. split; [reflexivity|lia].
Qed.

Lemma next_wake_after_publish_witness :
  timer_wait (snd (cycle Sample.cfg_file
                     (Sample.world_ok (Sample.token_expiring_in (10 * Minute)))
                     Sample.state_empty))
  = next_wake (Expiry (Sample.token_expiring_in (10 * Minute))) Sample.now0
              (margin Sample.cfg_file).
Proof.
  refine (proj1 (proj2 (proj2 (proj2
    (next_wake_after_publish Sample.cfg_file
       (Sample.world_ok (Sample.token_expiring_in (10 * Minute)))
       Sample.state_empty (Sample.token_expiring_in (10 * Minute))
       eq_refl _ _))) _ _)).
  - vm_compute; reflexivity.
  - vm_compute; reflexivity.
  - vm_compute. split; discriminate.
  - vm_compute. split; discriminate.
Defined.

(** ** Failed fetches *)




(** ** Failed publishes and invalid tokens *)


(** The same happens when the temporary path is another spelling of the
    path of the token file, or a hard link to the token file: the two
    path strings differ, the file is one. *)
Example failed_write_clobbers_other_spelling :
  let t := Sample.token_expiring_in (10 * Minute) in
  let r := cycle Sample.cfg_dot (Sample.world_disk_full t) Sample.state_old_token in
  tempFile Sample.cfg_dot = "./token" /\ file Sample.cfg_dot = "token" /\
  ReadFile "token" (files Sample.state_old_token) = Some "old-token" /\
  ReadFile "token" (files (fst r)) = Some "".
Proof. vm_compute. repeat split. Qed.

Example failed_write_clobbers_hard_link :
  let t := Sample.token_expiring_in (10 * Minute) in
  let r := cycle Sample.cfg_file (Sample.world_disk_full t) Sample.state_hard_link in
  tempFile Sample.cfg_file = "token.tmp" /\ file Sample.cfg_file = "token" /\
  ReadFile "token" (files Sample.state_hard_link) = Some "old-token" /\
  ReadFile "token" (files (fst r)) = Some "".
Proof. vm_compute. repeat split. Qed.



(** ** Successful publishes *)






(** ** The parameters of the token request *)

(** What the three assignments amount to: the scopes win over the
    password grant, which wins over the audience; one set at most is
    kept. *)
Lemma EndpointParams_priority (cfg : config) :
  EndpointParams cfg =
  if negb (length (scope cfg) =? 0)%nat then
    {[ "scope" := [Join (scope cfg) " "] ]}
  else if nonempty (username (oidc cfg)) && nonempty (password (oidc cfg)) then
    <[ "username" := [username (oidc cfg)] ]>
    (<[ "password" := [password (oidc cfg)] ]>
     {[ "grant_type" := ["password"] ]})
  else if nonempty (audience (oidc cfg)) then
    {[ "audience" := [audience (oidc cfg)] ]}
  else ∅.
Proof.
  unfold EndpointParams.
  destruct (negb (length (scope cfg) =? 0)%nat),
           (nonempty (username (oidc cfg)) && nonempty (password (oidc cfg))),
           (nonempty (audience (oidc cfg))); reflexivity.
Qed.

(** The code and the order of the specification agree except when the
    password grant and the scopes are configured together. *)
Lemma EndpointParams_claimed (cfg : config) :
  nonempty (username (oidc cfg)) && nonempty (password (oidc cfg))
    && negb (length (scope cfg) =? 0)%nat = false ->
  EndpointParams cfg = claimed_params cfg.
Proof.
  rewrite EndpointParams_priority. unfold claimed_params.
  destruct (negb (length (scope cfg) =? 0)%nat),
           (nonempty (username (oidc cfg)) && nonempty (password (oidc cfg)));
    cbn; intros H; try reflexivity; discriminate.
Qed.

(** C3, on the code: with a user name, a password and scopes the token
    request carries the scope parameter only; neither the password
    grant type nor the credentials are sent, where the specification
    (and the help text of [--oidc.username]) has [grant_type=password]
    sent. *)
Theorem EndpointParams_scope_drops_password :
  EndpointParams Sample.cfg_password_scope = {[ "scope" := ["openid profile"] ]} /\
  EndpointParams Sample.cfg_password_scope !! "grant_type" = None /\
  EndpointParams Sample.cfg_password_scope !! "username" = None /\
  EndpointParams Sample.cfg_password_scope !! "password" = None /\
  claimed_params Sample.cfg_password_scope !! "grant_type" = Some ["password"] /\
  claimed_params Sample.cfg_password_scope !! "username" = Some ["alice"] /\
  claimed_params Sample.cfg_password_scope !! "scope" = None.
Proof. repeat split; vm_compute; reflexivity. Qed.

(** ** Validation of the configuration *)

Lemma nonempty_false (s : string) : nonempty s = false <-> s = "".
Proof.
  unfold nonempty. destruct (String.eqb_spec s ""); cbn; split; congruence.
Qed.

Lemma nonempty_true (s : string) : nonempty s = true <-> s <> "".
Proof.
  unfold nonempty. destruct (String.eqb_spec s ""); cbn; split; congruence.
Qed.

(** When [parseFlags] fails, [main] prints the error and exits: nothing
    else happens, in particular nothing on the network. *)
Lemma main_config_error (url_Parse : string -> string + URL) (fl : Flags)
  (env : StartEnv) (err : string) :
  parseFlags url_Parse fl = inl err ->
  main url_Parse fl env = [Fatal err] /\
  existsb is_network (main url_Parse fl env) = false.
Proof. intros H. unfold main. now rewrite H. Qed.

(** C8: without [--file] and without an upstream URL [parseFlags]
    returns an error, and [main] prints it and exits before the
    discovery request or any other use of the network; with a valid log
    level the error is the one about [--file] and [--upstream.url].
    With [--url] and [--upstream.url] both set [parseFlags] returns an
    error as well.  With [--file] and one upstream URL that parses, and
    a valid log level, [parseFlags] returns a configuration that has
    both, and [main] starts the file loop and the proxy. *)
Theorem config_validation (url_Parse : string -> string + URL) (fl : Flags)
  (env : StartEnv) :
  (flag_file fl = "" -> flag_url fl = "" -> flag_upstream_url fl = "" ->
   exists err,
     parseFlags url_Parse fl = inl err /\
     main url_Parse fl env = [Fatal err] /\
     existsb is_network (main url_Parse fl env) = false /\
     (valid_log_level (flag_log_level fl) = true ->
      err = "one of --file or --upstream.url is required")) /\
  (flag_url fl <> "" -> flag_upstream_url fl <> "" ->
   exists err,
     parseFlags url_Parse fl = inl err /\
     main url_Parse fl env = [Fatal err] /\
     existsb is_network (main url_Parse fl env) = false /\
     (valid_log_level (flag_log_level fl) = true ->
      err = "use only one of --url or --upstream.url")) /\
  (forall raw u,
     valid_log_level (flag_log_level fl) = true ->
     flag_file fl <> "" ->
     raw <> "" ->
     (flag_url fl = raw /\ flag_upstream_url fl = "") \/
     (flag_url fl = "" /\ flag_upstream_url fl = raw) ->
     url_Parse raw = inr u ->
     exists cfg,
       parseFlags url_Parse fl = inr cfg /\
       file cfg = flag_file fl /\
       url (upstream cfg) = Some u /\
       (forall tokenURL,
          discovery env = inr tokenURL -> flag_upstream_ca_file fl = "" ->
          main url_Parse fl env =
          [NewProvider (flag_oidc_issuer_url fl);
           GroupRun [SignalHandler; InternalServer; TokenFileLoop; ProxyServer]])).
Proof.
  split; [|split].
  - intros Hf Hu Hv.
    assert (E : exists err, parseFlags url_Parse fl = inl err /\
              (valid_log_level (flag_log_level fl) = true ->
               err = "one of --file or --upstream.url is required")).
    { unfold parseFlags, valid_log_level. rewrite Hf, Hu, Hv. cbn.
      destruct (String.eqb (flag_log_level fl) "error"),
               (String.eqb (flag_log_level fl) "warn"),
               (String.eqb (flag_log_level fl) "info"),
               (String.eqb (flag_log_level fl) "debug"); cbn; eauto;
        eexists; (split; [reflexivity | discriminate]). }
    destruct E as (err & E1 & E2). exists err.
    destruct (main_config_error url_Parse fl env err E1). auto.
  - intros Hu Hv. apply nonempty_true in Hu, Hv.
    assert (E : exists err, parseFlags url_Parse fl = inl err /\
              (valid_log_level (flag_log_level fl) = true ->
               err = "use only one of --url or --upstream.url")).
    { unfold parseFlags, valid_log_level. rewrite Hu, Hv. cbn.
      destruct (String.eqb (flag_log_level fl) "error"),
               (String.eqb (flag_log_level fl) "warn"),
               (String.eqb (flag_log_level fl) "info"),
               (String.eqb (flag_log_level fl) "debug"); cbn; eauto;
        eexists; (split; [reflexivity | discriminate]). }
    destruct E as (err & E1 & E2). exists err.
    destruct (main_config_error url_Parse fl env err E1). auto.
  - intros raw u Hl Hf Hraw Hurl Hp.
    pose proof (proj2 (nonempty_true raw) Hraw) as Nraw.
    pose proof (proj2 (nonempty_true (flag_file fl)) Hf) as Nf.
    assert (Ef : String.eqb (flag_file fl) "" = false).
    { unfold nonempty in Nf. now destruct (String.eqb (flag_file fl) ""). }
    assert (E : exists cfg, parseFlags url_Parse fl = inr cfg /\
                file cfg = flag_file fl /\ url (upstream cfg) = Some u /\
                caFile (upstream cfg) = flag_upstream_ca_file fl /\
                issuerURL (oidc cfg) = flag_oidc_issuer_url fl).
    { unfold parseFlags, valid_log_level in *.
      destruct Hurl as [[Hu Hv] | [Hu Hv]]; rewrite Hu, Hv, ?Nraw, ?Hp, Ef; cbn;
        rewrite ?Nraw, ?Hp; cbn;
        destruct (String.eqb (flag_log_level fl) "error"),
                 (String.eqb (flag_log_level fl) "warn"),
                 (String.eqb (flag_log_level fl) "info"),
                 (String.eqb (flag_log_level fl) "debug"); try discriminate;
        cbn; eexists; repeat split; reflexivity. }
    destruct E as (cfg & E1 & E2 & E3 & E4 & E5). exists cfg.
    split; [exact E1|]. split; [exact E2|]. split; [exact E3|].
    intros tokenURL Hd Hca. unfold main. rewrite E1, Hd, E3, E4, Hca, E2, Nf, E5.
    reflexivity.
Qed.

Lemma config_validation_witness :
  (exists err,
     parseFlags Sample.parse_sample (Sample.flags_with "" "" "") = inl err /\
     main Sample.parse_sample (Sample.flags_with "" "" "") Sample.start_ok = [Fatal err]) /\
  (exists err,
     parseFlags Sample.parse_sample
       (Sample.flags_with "token" "http://a" "http://b") = inl err) /\
  (exists cfg,
     parseFlags Sample.parse_sample
       (Sample.flags_with "token" "" "http://127.0.0.1:8443/api/metrics/v1/test") = inr cfg /\
     file cfg = "token" /\ url (upstream cfg) = Some Sample.upstream_url).
Proof.
  split; [|split].
  - destruct (proj1 (config_validation Sample.parse_sample (Sample.flags_with "" "" "")
                       Sample.start_ok) eq_refl eq_refl eq_refl)
      as (err & H1 & H2 & _).
    exists err. split; assumption.
  - destruct (proj1 (proj2 (config_validation Sample.parse_sample
                              (Sample.flags_with "token" "http://a" "http://b")
                              Sample.start_ok)))
      as (err & H1 & _); [discriminate | discriminate |].
    exists err. assumption.
  - destruct (proj2 (proj2 (config_validation Sample.parse_sample
                (Sample.flags_with "token" "" "http://127.0.0.1:8443/api/metrics/v1/test")
                Sample.start_ok))
                "http://127.0.0.1:8443/api/metrics/v1/test" Sample.upstream_url)
      as (cfg & H1 & H2 & H3 & _).
    + reflexivity.
    + discriminate.
    + discriminate.
    + right. split; reflexivity.
    + reflexivity.
    + exists cfg. repeat split; assumption.
Defined.

(** ** The reverse proxy *)

Lemma prefixHeader_canonical : CanonicalMIMEHeaderKey prefixHeader = "X-Forwarded-Prefix".
Proof. vm_compute. reflexivity. Qed.

Lemma Authorization_canonical : CanonicalMIMEHeaderKey "Authorization" = "Authorization".
Proof. vm_compute. reflexivity. Qed.

(** [joinURLPath] never panics. *)
Lemma joinURLPath_total (a b : URL) :
  exists path rawpath, joinURLPath a b = Some (path, rawpath).
Proof.
  destruct (String.eqb (RawPath a) "" && String.eqb (RawPath b) "") eqn:E.
  - unfold joinURLPath. rewrite E, singleJoiningSlash_spec. cbn. eauto.
  - rewrite (joinURLPath_escaped a b E). eauto.
Qed.

(** The [Director], field by field. *)
Lemma Director_fields (target : URL) (request : Request) (path rawpath : string) :
  joinURLPath target (ReqURL request) = Some (path, rawpath) ->
  Director target request =
  Some (mkRequest (Method request)
          (mkURL (Scheme target) (Opaque (ReqURL request)) (User (ReqURL request))
                 (Host target) path rawpath (ForceQuery (ReqURL request))
                 (RawQuery (ReqURL request)) (Fragment (ReqURL request)))
          (Proto request)
          (<["X-Forwarded-Prefix" :=
               default [] (ReqHeader request !! "X-Forwarded-Prefix") ++ ["/"]]>
             (ReqHeader request))
          (Body request) (ContentLength request) (Host target)
          (RemoteAddr request) (RequestURI request)).
Proof.
  intros J. unfold Director.
  change (joinURLPath target
            (ReqURL (set_ReqURL (set_Host (Host target)
               (ReqURL (set_ReqHost (Host target)
                  (set_ReqURL (set_Scheme (Scheme target) (ReqURL request)) request))))
               (set_ReqHost (Host target)
                  (set_ReqURL (set_Scheme (Scheme target) (ReqURL request)) request)))))
    with (joinURLPath target (ReqURL request)).
  rewrite J. cbn. unfold Header_Add. now rewrite prefixHeader_canonical.
Qed.

(** C10: the [Director] never panics, and of the request it changes the
    scheme, the host and the two paths of the URL, the field [Host] and
    the values of the header [X-Forwarded-Prefix], to which it appends
    one ["/"]; the method, the query string, the body, every other
    header and every other field are those of the incoming request. *)
Theorem Director_frame (target : URL) (request : Request) :
  exists out,
    Director target request = Some out /\
    Method out = Method request /\
    Body out = Body request /\
    Proto out = Proto request /\
    ContentLength out = ContentLength request /\
    RemoteAddr out = RemoteAddr request /\
    RequestURI out = RequestURI request /\
    RawQuery (ReqURL out) = RawQuery (ReqURL request) /\
    ForceQuery (ReqURL out) = ForceQuery (ReqURL request) /\
    Fragment (ReqURL out) = Fragment (ReqURL request) /\
    Opaque (ReqURL out) = Opaque (ReqURL request) /\
    User (ReqURL out) = User (ReqURL request) /\
    (forall key, key <> "X-Forwarded-Prefix" ->
       ReqHeader out !! key = ReqHeader request !! key) /\
    ReqHeader out !! "X-Forwarded-Prefix" =
      Some (default [] (ReqHeader request !! "X-Forwarded-Prefix") ++ ["/"]) /\
    Scheme (ReqURL out) = Scheme target /\
    Host (ReqURL out) = Host target /\
    ReqHost out = Host target /\
    joinURLPath target (ReqURL request) = Some (Path (ReqURL out), RawPath (ReqURL out)).
Proof.
  destruct (joinURLPath_total target (ReqURL request)) as (path & rawpath & J).
  eexists. split; [apply (Director_fields target request path rawpath J)|].
  cbn. repeat split; try reflexivity; try exact J.
  - intros key Hk. now rewrite lookup_insert_ne.
  - now rewrite lookup_insert_eq.
Qed.

(** ** The headers through the reverse proxy *)

(** Deleting a list of headers leaves the keys that are none of them
    and removes the keys that are one of them. *)
Lemma Header_Del_all_frame (l : list string) (h : Header) (key : string) :
  Forall (fun f => CanonicalMIMEHeaderKey f <> key) l ->
  foldl (fun h' sf => Header_Del sf h') h l !! key = h !! key.
Proof.
  revert h. induction l as [|f l IH]; intros h H; [reflexivity|].
  inversion H as [|? ? Hf Hl]; subst. cbn [foldl]. rewrite IH by exact Hl.
  unfold Header_Del. now rewrite lookup_delete_ne.
Qed.

Lemma Header_Del_all_hit (l : list string) (h : Header) (key : string) :
  Exists (fun f => CanonicalMIMEHeaderKey f = key) l ->
  foldl (fun h' sf => Header_Del sf h') h l !! key = None.
Proof.
  revert h. induction l as [|f l IH]; intros h H; [now inversion H|].
  cbn [foldl]. destruct (decide (Exists (fun f => CanonicalMIMEHeaderKey f = key) l)) as [E|E].
  - now apply IH.
  - inversion H as [? ? Hf | ? ? Hl]; subst; [|contradiction].
    rewrite Header_Del_all_frame.
    + unfold Header_Del. apply lookup_delete_eq.
    + apply Forall_forall. intros x Hx Ex. apply E, Exists_exists. eauto.
Qed.

Lemma remove_hop_header_frame (h : Header) (name key : string) :
  CanonicalMIMEHeaderKey name <> key -> remove_hop_header h name !! key = h !! key.
Proof.
  intros H. unfold remove_hop_header.
  destruct (String.eqb (Header_Get name h) ""); [reflexivity|].
  destruct (String.eqb name "Te" && String.eqb (Header_Get name h) "trailers"); [reflexivity|].
  unfold Header_Del. now rewrite lookup_delete_ne.
Qed.

Lemma hop_headers_frame (l : list string) (h : Header) (key : string) :
  Forall (fun f => CanonicalMIMEHeaderKey f <> key) l ->
  foldl remove_hop_header h l !! key = h !! key.
Proof.
  revert h. induction l as [|f l IH]; intros h H; [reflexivity|].
  inversion H as [|? ? Hf Hl]; subst. cbn [foldl]. rewrite IH by exact Hl.
  now apply remove_hop_header_frame.
Qed.

(** A key that is not one of the hop-by-hop headers is the canonical
    form of none of them. *)
Lemma hopHeaders_canonical (key : string) :
  key ∉ hopHeaders -> Forall (fun f => CanonicalMIMEHeaderKey f <> key) hopHeaders.
Proof.
  intros H. unfold hopHeaders in *.
  repeat (apply Forall_cons; split;
          [intros E; apply H; rewrite <- E; vm_compute CanonicalMIMEHeaderKey;
           repeat first [apply list_elem_of_here | apply list_elem_of_further]|]).
  apply Forall_nil. exact I.
Qed.

Section ProxyHeaders.

Variable ToLower : string -> string.
Variable TrimSpace : string -> string.

(** The reverse proxy leaves a header that is neither hop-by-hop, nor
    listed in [Connection], nor [X-Forwarded-For]. *)
Lemma proxy_headers_frame (remote : string) (h1 : Header) (key : string) :
  key ∉ hopHeaders -> key <> "X-Forwarded-For" ->
  Forall (fun f => CanonicalMIMEHeaderKey f <> key) (connection_fields TrimSpace h1) ->
  proxy_headers ToLower TrimSpace remote h1 !! key = h1 !! key.
Proof.
  intros Hhop Hxff Hconn.
  assert (H3 : foldl remove_hop_header (removeConnectionHeaders TrimSpace h1) hopHeaders !! key
               = h1 !! key).
  { rewrite hop_headers_frame by now apply hopHeaders_canonical.
    unfold removeConnectionHeaders. now apply Header_Del_all_frame. }
  assert (H4 : (if negb (String.eqb (upgradeType ToLower h1) "")
                then Header_Set "Upgrade" (upgradeType ToLower h1)
                       (Header_Set "Connection" "Upgrade"
                          (foldl remove_hop_header (removeConnectionHeaders TrimSpace h1)
                             hopHeaders))
                else foldl remove_hop_header (removeConnectionHeaders TrimSpace h1) hopHeaders)
               !! key = h1 !! key).
  { destruct (negb _); [|exact H3]. unfold Header_Set.
    change (CanonicalMIMEHeaderKey "Upgrade") with "Upgrade".
    change (CanonicalMIMEHeaderKey "Connection") with "Connection".
    rewrite !lookup_insert_ne; [exact H3| |];
      intros <-; apply Hhop; unfold hopHeaders;
      repeat first [apply list_elem_of_here | apply list_elem_of_further]. }
  unfold proxy_headers. cbv zeta.
  destruct (SplitHostPort remote) as [[clientIP port]|]; [|exact H4].
  unfold Header_Set at 1.
  change (CanonicalMIMEHeaderKey "X-Forwarded-For") with "X-Forwarded-For".
  rewrite lookup_insert_ne by congruence. exact H4.
Qed.

(** A header that [Connection] lists does not leave the proxy. *)
Lemma proxy_headers_removed (remote : string) (h1 : Header) (key : string) :
  key ∉ hopHeaders -> key <> "X-Forwarded-For" ->
  Exists (fun f => CanonicalMIMEHeaderKey f = key) (connection_fields TrimSpace h1) ->
  proxy_headers ToLower TrimSpace remote h1 !! key = None.
Proof.
  intros Hhop Hxff Hconn.
  assert (H3 : foldl remove_hop_header (removeConnectionHeaders TrimSpace h1) hopHeaders !! key
               = None).
  { rewrite hop_headers_frame by now apply hopHeaders_canonical.
    unfold removeConnectionHeaders. now apply Header_Del_all_hit. }
  assert (H4 : (if negb (String.eqb (upgradeType ToLower h1) "")
                then Header_Set "Upgrade" (upgradeType ToLower h1)
                       (Header_Set "Connection" "Upgrade"
                          (foldl remove_hop_header (removeConnectionHeaders TrimSpace h1)
                             hopHeaders))
                else foldl remove_hop_header (removeConnectionHeaders TrimSpace h1) hopHeaders)
               !! key = None).
  { destruct (negb _); [|exact H3]. unfold Header_Set.
    change (CanonicalMIMEHeaderKey "Upgrade") with "Upgrade".
    change (CanonicalMIMEHeaderKey "Connection") with "Connection".
    rewrite !lookup_insert_ne; [exact H3| |];
      intros <-; apply Hhop; unfold hopHeaders;
      repeat first [apply list_elem_of_here | apply list_elem_of_further]. }
  unfold proxy_headers. cbv zeta.
  destruct (SplitHostPort remote) as [[clientIP port]|]; [|exact H4].
  unfold Header_Set at 1.
  change (CanonicalMIMEHeaderKey "X-Forwarded-For") with "X-Forwarded-For".
  rewrite lookup_insert_ne by congruence. exact H4.
Qed.

(** The [Director] does not touch [Connection]. *)
Lemma connection_fields_insert (h : Header) (key : string) (v : list string) :
  key <> "Connection" ->
  connection_fields TrimSpace (<[key := v]> h) = connection_fields TrimSpace h.
Proof.
  intros H. unfold connection_fields. now rewrite lookup_insert_ne.
Qed.

End ProxyHeaders.

(** ** What the proxy gives to the base transport *)


(** The folding of case is the one of Unicode: [basic] written with a
    long s is a token of type [Basic]. *)
Example Token_Type_long_s :
  len (TokenType Sample.token_long_s) = 6%nat /\
  Token_Type Sample.token_long_s = "Basic" /\
  Token_Type Sample.token_mac = "MAC".
Proof. vm_compute. repeat split. Qed.

(** The request that the proxy gives to the base transport, field by
    field. *)
Lemma forward_fields (ToLower TrimSpace : string -> string) (target : URL)
  (request : Request) (tok : Token) (path rawpath : string) :
  joinURLPath target (ReqURL request) = Some (path, rawpath) ->
  forward ToLower TrimSpace target (inr tok) request =
  Some (inr (mkRequest (Method request)
          (mkURL (Scheme target) (Opaque (ReqURL request)) (User (ReqURL request))
                 (Host target) path rawpath (ForceQuery (ReqURL request))
                 (RawQuery (ReqURL request)) (Fragment (ReqURL request)))
          (Proto request)
          (<["Authorization" := [Token_Type tok +:+ " " +:+ AccessToken tok]]>
             (proxy_headers ToLower TrimSpace (RemoteAddr request)
                (<["X-Forwarded-Prefix" :=
                     default [] (ReqHeader request !! "X-Forwarded-Prefix") ++ ["/"]]>
                   (ReqHeader request))))
          (if ContentLength request =? 0 then "" else Body request)
          (ContentLength request) (Host target)
          (RemoteAddr request) (RequestURI request))).
Proof.
  intros J. unfold forward, ReverseProxy_ServeHTTP. cbv zeta.
  rewrite (Director_fields target _ path rawpath) by exact J.
  cbn. unfold Transport_RoundTrip, SetAuthHeader, Header_Set. cbn.
  now rewrite Authorization_canonical.
Qed.

(** Without a token nothing is forwarded: the error of the token source
    is the result of the round trip. *)
Lemma forward_source_error (ToLower TrimSpace : string -> string) (target : URL)
  (request : Request) (err : string) :
  forward ToLower TrimSpace target (inl err) request = Some (inl err).
Proof.
  destruct (joinURLPath_total target (ReqURL request)) as (path & rawpath & J).
  unfold forward, ReverseProxy_ServeHTTP. cbv zeta.
  now rewrite (Director_fields target _ path rawpath) by exact J.
Qed.





(* ===================================================================== *)
(** * Further properties of the refresh loop                              *)
(* ===================================================================== *)

(** ** What one iteration does to the files and to the log *)

(** The four ways through an iteration. *)
Lemma cycle_cases (cfg : config) (e : CycleEnv) (st : State) :
  (exists err,
     fetched e = inl err /\ iteration_fails e = true /\
     files (fst (cycle cfg e st)) = files st /\
     exists en, logged (fst (cycle cfg e st)) = logged st ++ [en] /\
                entry_level en = LevelError) \/
  (exists t,
     fetched e = inr t /\ Token_Valid t (now_valid e) = false /\
     iteration_fails e = true /\
     files (fst (cycle cfg e st)) = files st /\
     exists en, logged (fst (cycle cfg e st)) = logged st ++ [en] /\
                entry_level en = LevelError) \/
  (exists t,
     fetched e = inr t /\ Token_Valid t (now_valid e) = true /\
     iteration_fails e = true /\
     snd (publish cfg (write_outcome e) (rename_outcome e) t (files st)) <> None /\
     files (fst (cycle cfg e st)) =
       fst (publish cfg (write_outcome e) (rename_outcome e) t (files st)) /\
     exists en, logged (fst (cycle cfg e st)) = logged st ++ [en] /\
                entry_level en = LevelError) \/
  (exists t,
     fetched e = inr t /\ Token_Valid t (now_valid e) = true /\
     iteration_fails e = false /\
     write_outcome e = WriteOk /\ rename_outcome e = RenameOk /\
     files (fst (cycle cfg e st)) = fst (publish cfg WriteOk RenameOk t (files st)) /\
     logged (fst (cycle cfg e st)) = logged st /\
     snd (cycle cfg e st) =
       Duration_sub (Time_Sub (Expiry t) (now_sched e)) (margin cfg)).
Proof.
  destruct (fetched e) as [err | t] eqn:F.
  - left. exists err. rewrite (cycle_fetch_error cfg e st err F).
    unfold iteration_fails. rewrite F. cbn. eauto 10.
  - destruct (Token_Valid t (now_valid e)) eqn:V.
    + destruct (publish cfg (write_outcome e) (rename_outcome e) t (files st))
        as [fs' [[msg err]|]] eqn:P.
      * right; right; left. exists t.
        rewrite (cycle_publish_failed cfg e st t fs' msg err F V P).
        assert (N : snd (publish cfg (write_outcome e) (rename_outcome e) t (files st))
                    <> None) by now rewrite P.
        split; [reflexivity|]. split; [exact V|]. split.
        { unfold iteration_fails. rewrite F, V. cbn.
          destruct (write_outcome e) eqn:W, (rename_outcome e) eqn:R; try reflexivity.
          exfalso. apply N. now apply publish_success. }
        split; [exact N|]. split; [now rewrite P|]. cbn. eauto.
      * right; right; right. exists t.
        assert (S : snd (publish cfg (write_outcome e) (rename_outcome e) t (files st))
                    = None) by now rewrite P.
        pose proof (proj1 (publish_success _ _ _ _ _) S) as [W R].
        rewrite (cycle_published cfg e st t F V S).
        unfold iteration_fails. rewrite F, V, W, R. cbn.
        repeat split; try reflexivity; assumption.
    + right; left. exists t. rewrite (cycle_invalid cfg e st t F V).
      unfold iteration_fails. rewrite F, V. cbn.
      split; [reflexivity|]. split; [first [exact V | reflexivity]|]. eauto 10.
Qed.

Lemma cycle_path_entry (cfg : config) (e : CycleEnv) (st : State) :
  path_entry (files (fst (cycle cfg e st))) = path_entry (files st).
Proof.
  destruct (cycle_cases cfg e st)
    as [(err & _ & _ & E & _) | [(t & _ & _ & _ & E & _) |
       [(t & _ & _ & _ & _ & E & _) | (t & _ & _ & _ & _ & _ & E & _)]]];
    rewrite E; try reflexivity; apply publish_path_entry.
Qed.

(** An iteration changes nothing for a path that names another entry
    than the token path and does not lead to the temporary file. *)
Lemma cycle_files_frame (cfg : config) (e : CycleEnv) (st : State) (path : string) :
  path_entry (files st) path <> path_entry (files st) (file cfg) ->
  ~ same_file (files st) (tempFile cfg) path ->
  ReadFile path (files (fst (cycle cfg e st))) = ReadFile path (files st) /\
  ~ same_file (files (fst (cycle cfg e st))) (tempFile cfg) path.
Proof.
  intros Hf Ht.
  destruct (cycle_cases cfg e st)
    as [(err & _ & _ & E & _) | [(t & _ & _ & _ & E & _) |
       [(t & _ & _ & _ & _ & E & _) | (t & _ & _ & _ & _ & _ & E & _)]]];
    rewrite E; try (now split); now apply publish_frame.
Qed.


(** ** Runs of the loop *)

Lemma loop_app (cfg : config) (envs1 envs2 : list CycleEnv) (st : State) :
  (forall e, In e envs1 -> ctx_done e = false) ->
  loop cfg (envs1 ++ envs2) st =
  mkRun (final (loop cfg envs2 (final (loop cfg envs1 st))))
        (slept (loop cfg envs1 st) ++ slept (loop cfg envs2 (final (loop cfg envs1 st))))
        (fetches (loop cfg envs1 st) + fetches (loop cfg envs2 (final (loop cfg envs1 st))))
        (exit (loop cfg envs2 (final (loop cfg envs1 st)))).
Proof.
  revert st. induction envs1 as [|e rest IH]; intros st H.
  - cbn. now destruct (loop cfg envs2 st).
  - assert (D : ctx_done e = false) by (apply H; now left).
    change ((e :: rest) ++ envs2) with (e :: (rest ++ envs2)).
    rewrite !loop_continue by exact D. cbn [final slept fetches exit].
    rewrite IH by (intros e' Hin; apply H; now right). reflexivity.
Qed.

(** X1: whatever the world answers, a run of the loop changes no file
    other than the token file and the temporary file: a path that names
    another directory entry than the token path, and that does not lead
    to the file of the temporary path, reads after the run as it did
    before. *)
Theorem loop_touches_two_files (cfg : config) (envs : list CycleEnv) (st : State)
  (path : string) :
  path_entry (files st) path <> path_entry (files st) (file cfg) ->
  ~ same_file (files st) (tempFile cfg) path ->
  ReadFile path (files (final (loop cfg envs st))) = ReadFile path (files st).
Proof.
  revert st. induction envs as [|e rest IH]; intros st Hf Ht; [reflexivity|].
  destruct (cycle_files_frame cfg e st path Hf Ht) as [R N].
  destruct (ctx_done e) eqn:D.
  - rewrite loop_return by exact D. exact R.
  - rewrite loop_continue by exact D. cbn [final]. rewrite IH; [exact R | | exact N].
    now rewrite cycle_path_entry.
Qed.

Lemma loop_touches_two_files_witness :
  ReadFile "notes.txt"
    (files (final (loop Sample.cfg_file
                     [Sample.world_ok (Sample.token_expiring_in (10 * Minute));
                      Sample.world_disk_full (Sample.token_expiring_in (10 * Minute))]
                     (mkState (Sample.fs_with "notes.txt" "keep" Sample.fs_empty) []))))
  = Some "keep".
Proof.
  rewrite (loop_touches_two_files Sample.cfg_file _ _ "notes.txt").
  - reflexivity.
  - vm_compute. discriminate.
  - intros [E | (i & H1 & _)]; [vm_compute in E | vm_compute in H1]; discriminate.
Defined.



(** X3: the loop only appends to the log, only entries of level error,
    and exactly one for each iteration that did not publish; an
    iteration that publishes logs nothing. *)
Theorem loop_logs_failures (cfg : config) (envs : list CycleEnv) (st : State) :
  exists new,
    logged (final (loop cfg envs st)) = logged st ++ new /\
    Forall (fun en => entry_level en = LevelError) new /\
    length new = count_failed (take (fetches (loop cfg envs st)) envs).
Proof.
  revert st. induction envs as [|e rest IH]; intros st.
  - exists []. cbn. rewrite app_nil_r. auto.
  - assert (C : exists new1,
              logged (fst (cycle cfg e st)) = logged st ++ new1 /\
              Forall (fun en => entry_level en = LevelError) new1 /\
              length new1 = if iteration_fails e then 1%nat else 0%nat).
    { destruct (cycle_cases cfg e st)
        as [(err & _ & I & _ & en & L & Lv) | [(t & _ & _ & I & _ & en & L & Lv) |
           [(t & _ & _ & I & _ & _ & en & L & Lv) | (t & _ & _ & I & _ & _ & _ & L & _)]]];
        rewrite I.
      1-3: exists [en]; repeat split; [exact L | now constructor].
      exists []. rewrite app_nil_r. repeat split; [exact L | constructor]. }
    destruct C as (new1 & L1 & F1 & N1).
    destruct (ctx_done e) eqn:D.
    + rewrite loop_return by exact D. cbn [final fetches take count_failed].
      exists new1. rewrite take_0. cbn. rewrite Nat.add_0_r. auto.
    + rewrite loop_continue by exact D. cbn [final fetches take count_failed].
      destruct (IH (fst (cycle cfg e st))) as (new2 & L2 & F2 & N2).
      exists (new1 ++ new2). rewrite L2, L1, <- app_assoc. split; [reflexivity|].
      split; [now apply Forall_app|]. rewrite length_app. lia.
Qed.

(** X4: once a [select] has received from [ctx.Done()] the loop has
    returned: the iteration that was running has still fetched (and
    may have published), and nothing that the world would answer
    afterwards is asked for. *)
Theorem loop_stops_at_cancellation (cfg : config) (pre post : list CycleEnv)
  (e : CycleEnv) (st : State) :
  (forall e', In e' pre -> ctx_done e' = false) ->
  ctx_done e = true ->
  exit (loop cfg (pre ++ e :: post) st) = Returned /\
  fetches (loop cfg (pre ++ e :: post) st) = S (length pre) /\
  length (slept (loop cfg (pre ++ e :: post) st)) = length pre /\
  final (loop cfg (pre ++ e :: post) st) = fst (cycle cfg e (final (loop cfg pre st))) /\
  (forall post', loop cfg (pre ++ e :: post') st = loop cfg (pre ++ e :: post) st).
Proof.
  intros Hpre D.
  destruct (loop_keeps_running cfg pre st Hpre) as (_ & Hf & Hs).
  assert (E : forall p, loop cfg (pre ++ e :: p) st =
                        mkRun (fst (cycle cfg e (final (loop cfg pre st))))
                              (slept (loop cfg pre st) ++ [])
                              (fetches (loop cfg pre st) + 1) Returned).
  { intros p. rewrite loop_app by exact Hpre. now rewrite loop_return by exact D. }
  split; [now rewrite E|]. split; [rewrite E; cbn [fetches]; lia|].
  split; [rewrite E; cbn [slept]; now rewrite app_nil_r|].
  split; [now rewrite E|]. intros post'. now rewrite !E.
Qed.

Lemma loop_stops_at_cancellation_witness :
  fetches (loop Sample.cfg_file
             ([Sample.world_fetch_error] ++
              Sample.world_cancelled (Sample.world_ok (Sample.token_expiring_in (10 * Minute)))
              :: [Sample.world_fetch_error; Sample.world_fetch_error])
             Sample.state_empty) = 2%nat.
Proof.
  refine (proj1 (proj2 (loop_stops_at_cancellation Sample.cfg_file
            [Sample.world_fetch_error] [Sample.world_fetch_error; Sample.world_fetch_error]
            (Sample.world_cancelled (Sample.world_ok (Sample.token_expiring_in (10 * Minute))))
            Sample.state_empty _ eq_refl))).
  intros e' [<- | []]. reflexivity.
Defined.

(** X5: tokens that live no longer than the margin make the loop fetch
    without pause: when every iteration publishes a valid token whose
    expiry is at most [margin] away, every wait is zero and nothing is
    logged, so that the token endpoint is asked as fast as it answers. *)
Theorem loop_short_lived_tokens (cfg : config) (envs : list CycleEnv) (st : State) :
  Forall (refreshes_at_once cfg) envs ->
  slept (loop cfg envs st) = repeat 0 (length envs) /\
  fetches (loop cfg envs st) = length envs /\
  exit (loop cfg envs st) = Running /\
  logged (final (loop cfg envs st)) = logged st.
Proof.
  intros H. revert st. induction H as [|e rest He Hrest IH]; intros st; [now cbn|].
  destruct He as (t & F & V & W & R & D & R1 & R2 & Hle).
  assert (P : snd (publish cfg (write_outcome e) (rename_outcome e) t (files st)) = None)
    by now apply publish_success.
  rewrite loop_continue by exact D.
  rewrite (cycle_published cfg e st t F V P). cbn [fst snd slept fetches exit final].
  destruct (IH (mkState (fst (publish cfg (write_outcome e) (rename_outcome e) t (files st)))
                        (logged st))) as (I1 & I2 & I3 & I4).
  rewrite I1, I2, I3, I4. cbn [logged length repeat].
  unfold Duration_sub. rewrite (Time_Sub_in_range _ _ R1), (wrap64_in_range _ R2).
  unfold timer_wait. rewrite Z.max_l by lia. auto.
Qed.

Lemma loop_short_lived_tokens_witness :
  slept (loop Sample.cfg_file
           [Sample.world_ok (Sample.token_expiring_in (30 * Second));
            Sample.world_ok (Sample.token_expiring_in (4 * Minute))]
           Sample.state_empty) = [0; 0].
Proof.
  refine (proj1 (loop_short_lived_tokens Sample.cfg_file
            [Sample.world_ok (Sample.token_expiring_in (30 * Second));
             Sample.world_ok (Sample.token_expiring_in (4 * Minute))]
            Sample.state_empty _)).
  repeat constructor.
  - exists (Sample.token_expiring_in (30 * Second)).
    repeat split; try reflexivity; vm_compute; discriminate.
  - exists (Sample.token_expiring_in (4 * Minute)).
    repeat split; try reflexivity; vm_compute; discriminate.
Defined.

(** X6: a token without expiry (zero [Expiry]) with an access token is
    valid at any time; once it is published, and with the clock more
    than 2^63 nanoseconds past the zero time (any date after the year
    293), the timer is set to 2^63 nanoseconds minus the margin for a
    positive margin, about 292 years, and to zero for a margin of zero
    or less. *)
Theorem cycle_token_without_expiry (cfg : config) (e : CycleEnv) (st : State) (t : Token) :
  fetched e = inr t ->
  Expiry t = zeroTime ->
  AccessToken t <> "" ->
  write_outcome e = WriteOk -> rename_outcome e = RenameOk ->
  2 ^ 63 < ns (now_sched e) ->
  Token_Valid t (now_valid e) = true /\
  (0 < margin cfg <= maxInt64 ->
   timer_wait (snd (cycle cfg e st)) = 2 ^ 63 - margin cfg) /\
  (minInt64 <= margin cfg <= 0 -> timer_wait (snd (cycle cfg e st)) = 0).
Proof.
  intros F Z A W R Hnow.
  assert (V : Token_Valid t (now_valid e) = true).
  { unfold Token_Valid, Token_expired. rewrite Z. cbn.
    apply String.eqb_neq in A. now rewrite A. }
  assert (P : snd (publish cfg (write_outcome e) (rename_outcome e) t (files st)) = None)
    by now apply publish_success.
  rewrite (cycle_published cfg e st t F V P). cbn [snd].
  assert (S : Time_Sub (Expiry t) (now_sched e) = minDuration).
  { apply (proj1 (Time_Sub_saturates _ _)). rewrite Z. unfold minInt64. cbn [ns zeroTime]. lia. }
  rewrite S. unfold Duration_sub, wrap64, timer_wait, minDuration, minInt64, maxInt64.
  split; [exact V|]. split; intros M.
  - replace (- 2 ^ 63 - margin cfg + 2 ^ 63) with (- margin cfg) by lia.
    replace (- margin cfg) with ((2 ^ 64 - margin cfg) + (-1) * 2 ^ 64) by lia.
    rewrite Z.mod_add by lia. rewrite Z.mod_small by lia. lia.
  - replace (- 2 ^ 63 - margin cfg + 2 ^ 63) with (- margin cfg) by lia.
    rewrite Z.mod_small by lia. lia.
Qed.

Lemma cycle_token_without_expiry_witness :
  timer_wait (snd (cycle Sample.cfg_file (Sample.world_ok Sample.token_no_expiry)
                     Sample.state_empty)) = 2 ^ 63 - 5 * Minute.
Proof.
  refine (proj1 (proj2 (cycle_token_without_expiry Sample.cfg_file
            (Sample.world_ok Sample.token_no_expiry) Sample.state_empty
            Sample.token_no_expiry eq_refl eq_refl _ eq_refl eq_refl _)) _).
  - discriminate.
  - vm_compute. reflexivity.
  - vm_compute. split; [reflexivity | discriminate].
Defined.

(** X7: when the temporary path does not lead to the token file, a
    publish that succeeded leaves nothing behind under the temporary
    path; a publish whose rename failed leaves the temporary file with
    the complete new token, a write that failed after [n] bytes leaves
    it with the first [n] bytes, and a write that failed at the open
    leaves it as it was: the loop never removes what a failed publish
    left. *)
Theorem publish_temporary_file (cfg : config) (wo : WriteOutcome) (ro : RenameOutcome)
  (t : Token) (fs : FS) :
  ~ same_file fs (tempFile cfg) (file cfg) ->
  (snd (publish cfg wo ro t fs) = None ->
   ReadFile (tempFile cfg) (fst (publish cfg wo ro t fs)) = None) /\
  (forall err, wo = WriteOk -> ro = RenameErr err ->
   ReadFile (tempFile cfg) (fst (publish cfg wo ro t fs)) = Some (AccessToken t)) /\
  (forall n err, wo = WriteShort n err ->
   ReadFile (tempFile cfg) (fst (publish cfg wo ro t fs)) =
   Some (String.substring 0 n (AccessToken t))) /\
  (forall err, wo = WriteOpenErr err ->
   ReadFile (tempFile cfg) (fst (publish cfg wo ro t fs)) = ReadFile (tempFile cfg) fs).
Proof.
  intros Hne. split; [|split; [|split]].
  - intros S. apply publish_success in S as [-> ->].
    rewrite (proj1 (publish_steps cfg RenameOk t fs)).
    destruct (truncate_and_write_frame (tempFile cfg) (AccessToken t) fs (file cfg) Hne)
      as [_ N1].
    destruct (truncate_and_write_linked (tempFile cfg) (AccessToken t) fs) as (i & Li & _).
    rewrite <- (truncate_and_write_path_entry (tempFile cfg) (AccessToken t) fs) in Li.
    pose proof (Rename_removed (tempFile cfg) (file cfg) _ N1 (ex_intro _ i Li)) as D.
    unfold ReadFile. rewrite Rename_path_entry, D. reflexivity.
  - intros err -> ->. unfold publish. cbn. apply truncate_and_write_read.
  - intros n err ->. unfold publish. cbn. apply truncate_and_write_read.
  - intros err ->. reflexivity.
Qed.

Lemma publish_temporary_file_witness :
  ReadFile "token.tmp"
    (fst (publish Sample.cfg_file WriteOk (RenameErr "permission denied")
            (Sample.token_expiring_in (10 * Minute)) (files Sample.state_old_token)))
  = Some "eyJhbGciOi".
Proof.
  refine (proj1 (proj2 (publish_temporary_file Sample.cfg_file WriteOk
            (RenameErr "permission denied") (Sample.token_expiring_in (10 * Minute))
            (files Sample.state_old_token) _)) "permission denied" eq_refl eq_refl).
  intros [E | (i & H1 & _)]; [vm_compute in E | vm_compute in H1]; discriminate.
Defined.

(** X8: a run in which no iteration gets a valid token (every fetch
    fails or returns an invalid token) writes nothing: all files,
    the temporary file included, are as before, whatever the two paths
    are. *)
Theorem loop_without_valid_token (cfg : config) (envs : list CycleEnv) (st : State) :
  (forall e, In e envs ->
     match fetched e with
     | inl _ => True
     | inr t => Token_Valid t (now_valid e) = false
     end) ->
  files (final (loop cfg envs st)) = files st /\
  length (logged (final (loop cfg envs st))) =
    (length (logged st) + fetches (loop cfg envs st))%nat.
Proof.
  revert st. induction envs as [|e rest IH]; intros st H.
  - cbn. split; [reflexivity | lia].
  - assert (C : files (fst (cycle cfg e st)) = files st /\
                length (logged (fst (cycle cfg e st))) = S (length (logged st))).
    { specialize (H e (or_introl eq_refl)).
      destruct (fetched e) as [err | t] eqn:F.
      - rewrite (cycle_fetch_error cfg e st err F). cbn. rewrite length_app. cbn.
        split; [reflexivity | lia].
      - rewrite (cycle_invalid cfg e st t F H). cbn. rewrite length_app. cbn.
        split; [reflexivity | lia]. }
    destruct C as [C1 C2].
    destruct (ctx_done e) eqn:D.
    + rewrite loop_return by exact D. cbn [final fetches]. split; [exact C1 | lia].
    + rewrite loop_continue by exact D. cbn [final fetches].
      destruct (IH (fst (cycle cfg e st))) as [I1 I2].
      { intros e' Hin. apply H. now right. }
      rewrite I1, I2, C1, C2. split; [reflexivity | lia].
Qed.

Lemma loop_without_valid_token_witness :
  files (final (loop Sample.cfg_alias
                  [Sample.world_fetch_error;
                   Sample.world_ok (Sample.token_expiring_in (5 * Second))]
                  Sample.state_old_token)) = files Sample.state_old_token.
Proof.
  refine (proj1 (loop_without_valid_token Sample.cfg_alias
            [Sample.world_fetch_error;
             Sample.world_ok (Sample.token_expiring_in (5 * Second))]
            Sample.state_old_token _)).
  intros e [<- | [<- | []]].
  - exact I.
  - vm_compute. reflexivity.
Defined.

(** X9: the loop carries nothing from one iteration to the next but the
    files and the log: a run over two scripts in a row is the run over
    the first followed by the run over the second from the state
    reached, with the waits and the fetches of both.  In particular a
    wait depends on its own iteration only: there is no back-off. *)
Theorem loop_runs_compose (cfg : config) (envs1 envs2 : list CycleEnv) (st : State) :
  (forall e, In e envs1 -> ctx_done e = false) ->
  final (loop cfg (envs1 ++ envs2) st) =
    final (loop cfg envs2 (final (loop cfg envs1 st))) /\
  slept (loop cfg (envs1 ++ envs2) st) =
    slept (loop cfg envs1 st) ++ slept (loop cfg envs2 (final (loop cfg envs1 st))) /\
  fetches (loop cfg (envs1 ++ envs2) st) =
    (length envs1 + fetches (loop cfg envs2 (final (loop cfg envs1 st))))%nat /\
  exit (loop cfg (envs1 ++ envs2) st) =
    exit (loop cfg envs2 (final (loop cfg envs1 st))) /\
  (forall st2, slept (loop cfg envs2 st2) = slept (loop cfg envs2 (final (loop cfg envs1 st)))).
Proof.
  intros H. rewrite (loop_app cfg envs1 envs2 st H). cbn [final slept fetches exit].
  destruct (loop_keeps_running cfg envs1 st H) as (_ & Hf & _). rewrite Hf.
  repeat split.
  intros st2. generalize (final (loop cfg envs1 st)). revert st2.
  induction envs2 as [|e rest IH]; intros st2 st3; [reflexivity|].
  assert (Dd : snd (cycle cfg e st2) = snd (cycle cfg e st3)).
  { destruct (cycle_cases cfg e st2)
      as [(err & F & _) | [(t & F & V & _) | [(t & F & V & _ & N & _) |
         (t & F & V & _ & W & R & _)]]].
    - now rewrite !(cycle_fetch_error cfg e _ err F).
    - now rewrite !(cycle_invalid cfg e _ t F V).
    - assert (N3 : snd (publish cfg (write_outcome e) (rename_outcome e) t (files st3))
                   <> None).
      { intros S. apply N. apply publish_success. now apply publish_success in S. }
      destruct (publish cfg (write_outcome e) (rename_outcome e) t (files st2))
        as [f2 [[m2 e2]|]] eqn:P2; [|now cbn in N].
      destruct (publish cfg (write_outcome e) (rename_outcome e) t (files st3))
        as [f3 [[m3 e3]|]] eqn:P3; [|now cbn in N3].
      now rewrite (cycle_publish_failed cfg e st2 t f2 m2 e2 F V P2),
                  (cycle_publish_failed cfg e st3 t f3 m3 e3 F V P3).
    - assert (S2 : snd (publish cfg (write_outcome e) (rename_outcome e) t (files st2))
                   = None) by now apply publish_success.
      assert (S3 : snd (publish cfg (write_outcome e) (rename_outcome e) t (files st3))
                   = None) by now apply publish_success.
      now rewrite (cycle_published cfg e st2 t F V S2),
                  (cycle_published cfg e st3 t F V S3). }
  destruct (ctx_done e) eqn:D.
  - now rewrite !loop_return by exact D.
  - rewrite !loop_continue by exact D. cbn [slept]. rewrite Dd. f_equal. apply IH.
Qed.

Lemma loop_runs_compose_witness :
  slept (loop Sample.cfg_file
           ([Sample.world_fetch_error] ++
            [Sample.world_ok (Sample.token_expiring_in (10 * Minute))])
           Sample.state_empty) = [retryInterval; 5 * Minute].
Proof.
  assert (H : forall e, In e [Sample.world_fetch_error] -> ctx_done e = false)
    by (intros e [<- | []]; reflexivity).
  rewrite (proj1 (proj2 (loop_runs_compose Sample.cfg_file [Sample.world_fetch_error]
             [Sample.world_ok (Sample.token_expiring_in (10 * Minute))]
             Sample.state_empty H))).
  vm_compute. reflexivity.
Defined.

(* ===================================================================== *)
(** * Further properties of the configuration                             *)
(* ===================================================================== *)

Lemma valid_log_level_cases (s : string) :
  valid_log_level s = true <->
  s = "error" \/ s = "warn" \/ s = "info" \/ s = "debug".
Proof.
  unfold valid_log_level. rewrite !orb_true_iff, !String.eqb_eq. tauto.
Qed.

(** The upstream URL that [parseFlags] would store, if the two flags do
    not exclude it: the error of [url.Parse], no URL, or the URL. *)
Lemma parseFlags_result (url_Parse : string -> string + URL) (fl : Flags) :
  parseFlags url_Parse fl =
  if negb (valid_log_level (flag_log_level fl)) then
    inl ("unexpected log level: " +:+ flag_log_level fl)
  else if nonempty (flag_url fl) && nonempty (flag_upstream_url fl) then
    inl "use only one of --url or --upstream.url"
  else
    match (if nonempty (flag_url fl) then
             match url_Parse (flag_url fl) with inl err => inl err | inr u => inr (Some u) end
           else if nonempty (flag_upstream_url fl) then
             match url_Parse (flag_upstream_url fl) with
             | inl err => inl err | inr u => inr (Some u) end
           else inr None) with
    | inl err => inl err
    | inr up =>
        if String.eqb (flag_file fl) "" && bool_decide (up = None) then
          inl "one of --file or --upstream.url is required"
        else
          inr (mkConfig (flag_file fl)
                 (if String.eqb (flag_log_level fl) "error" then AllowError
                  else if String.eqb (flag_log_level fl) "warn" then AllowWarn
                  else if String.eqb (flag_log_level fl) "info" then AllowInfo
                  else AllowDebug)
                 (flag_log_format fl) (flag_margin fl) (flag_debug_name fl)
                 (if String.eqb (flag_temp_file fl) "" then flag_file fl +:+ ".tmp"
                  else flag_temp_file fl)
                 (mkOidcConfig (flag_oidc_audience fl) (flag_oidc_client_id fl)
                    (flag_oidc_client_secret fl) (flag_oidc_issuer_url fl)
                    (flag_oidc_username fl) (flag_oidc_password fl))
                 (mkServerConfig (flag_web_listen fl) (flag_web_internal_listen fl))
                 (mkUpstreamConfig up (flag_upstream_ca_file fl)
                    (flag_upstream_read_timeout fl) (flag_upstream_write_timeout fl))
                 (flag_scope fl))
    end.
Proof.
  unfold parseFlags, valid_log_level.
  destruct (String.eqb (flag_log_level fl) "error"),
           (String.eqb (flag_log_level fl) "warn"),
           (String.eqb (flag_log_level fl) "info"),
           (String.eqb (flag_log_level fl) "debug"); cbn [orb negb];
    try reflexivity;
    destruct (nonempty (flag_url fl)) eqn:U, (nonempty (flag_upstream_url fl)) eqn:V;
    cbn [andb]; try reflexivity;
    try (destruct (url_Parse (flag_url fl)); reflexivity);
    try (destruct (url_Parse (flag_upstream_url fl)); reflexivity).
Qed.

Lemma string_app_neq (s t : string) : t <> "" -> s +:+ t <> s.
Proof.
  intros Ht E. assert (L : len (s +:+ t) = len s) by now rewrite E.
  rewrite len_app in L. destruct t; [contradiction | cbn in L; lia].
Qed.

(** X10: [parseFlags] succeeds exactly when the log level is one of the
    four, [--url] and [--upstream.url] are not both set, the one that is
    set parses, and [--file] or one of the two is set. *)
Theorem parseFlags_succeeds_iff (url_Parse : string -> string + URL) (fl : Flags) :
  (exists cfg, parseFlags url_Parse fl = inr cfg) <->
  valid_log_level (flag_log_level fl) = true /\
  (flag_url fl = "" \/ flag_upstream_url fl = "") /\
  (flag_url fl <> "" -> exists u, url_Parse (flag_url fl) = inr u) /\
  (flag_upstream_url fl <> "" -> exists u, url_Parse (flag_upstream_url fl) = inr u) /\
  (flag_file fl <> "" \/ flag_url fl <> "" \/ flag_upstream_url fl <> "").
Proof.
  rewrite parseFlags_result.
  destruct (valid_log_level (flag_log_level fl)); cbn [negb].
  2: { split; [intros [cfg H]; discriminate | intros [H _]; discriminate]. }
  destruct (nonempty (flag_url fl)) eqn:U, (nonempty (flag_upstream_url fl)) eqn:V;
    cbn [andb].
  - apply nonempty_true in U, V. split; [intros [cfg H]; discriminate|].
    intros (_ & [H | H] & _); contradiction.
  - apply nonempty_true in U. apply nonempty_false in V.
    destruct (url_Parse (flag_url fl)) as [err | u] eqn:P.
    + split; [intros [cfg H]; discriminate|].
      intros (_ & _ & H & _). destruct (H U) as [u Hu]. discriminate.
    + rewrite andb_false_r. split; [|eauto].
      intros _. repeat split; auto. { eauto. } { intros N. contradiction. }
  - apply nonempty_false in U. apply nonempty_true in V.
    destruct (url_Parse (flag_upstream_url fl)) as [err | u] eqn:P.
    + split; [intros [cfg H]; discriminate|].
      intros (_ & _ & _ & H & _). destruct (H V) as [u Hu]. discriminate.
    + rewrite andb_false_r. split; [|eauto].
      intros _. repeat split; auto. { intros N. contradiction. } { eauto. }
  - apply nonempty_false in U, V. cbn [bool_decide].
    destruct (String.eqb_spec (flag_file fl) "") as [F | F]; cbn.
    + split; [intros [cfg H]; discriminate|].
      intros (_ & _ & _ & _ & [H | [H | H]]); contradiction.
    + split; [|eauto]. intros _. repeat split; auto; intros N; contradiction.
Qed.

(** X11: an unknown log level is the first thing that [parseFlags]
    reports, with the level in the message, whatever else is wrong and
    without parsing any URL; and an error of [url.Parse] on the one URL
    that is set is returned as it is. *)
Theorem parseFlags_error_order (url_Parse : string -> string + URL) (fl : Flags) :
  (valid_log_level (flag_log_level fl) = false ->
   forall parse', parseFlags parse' fl = inl ("unexpected log level: " +:+ flag_log_level fl)) /\
  (forall err, valid_log_level (flag_log_level fl) = true ->
     flag_url fl <> "" -> flag_upstream_url fl = "" ->
     url_Parse (flag_url fl) = inl err -> parseFlags url_Parse fl = inl err) /\
  (forall err, valid_log_level (flag_log_level fl) = true ->
     flag_url fl = "" -> flag_upstream_url fl <> "" ->
     url_Parse (flag_upstream_url fl) = inl err -> parseFlags url_Parse fl = inl err).
Proof.
  split; [|split].
  - intros L parse'. rewrite parseFlags_result, L. reflexivity.
  - intros err L U V P. rewrite parseFlags_result, L. cbn [negb].
    apply nonempty_true in U. apply nonempty_false in V. now rewrite U, V, P.
  - intros err L U V P. rewrite parseFlags_result, L. cbn [negb].
    apply nonempty_false in U. apply nonempty_true in V. now rewrite U, V, P.
Qed.

Lemma parseFlags_error_order_witness :
  parseFlags Sample.parse_sample (Sample.flags_with "token" "ht tp://x" "") =
  inl "parse ht tp://x: invalid URL".
Proof.
  exact (proj1 (proj2 (parseFlags_error_order Sample.parse_sample
           (Sample.flags_with "token" "ht tp://x" ""))) _ eq_refl
           ltac:(discriminate) eq_refl eq_refl).
Defined.

(** X12: in the configuration that [parseFlags] returns the token file
    is the value of [--file]; without [--temp-file] the temporary file
    is that path with [.tmp] appended, which is never the path of the
    token file, and a [--temp-file] that is given is taken as it is,
    also when it names the token file. *)
Theorem parseFlags_tempFile (url_Parse : string -> string + URL) (fl : Flags)
  (cfg : config) :
  parseFlags url_Parse fl = inr cfg ->
  file cfg = flag_file fl /\
  (flag_temp_file fl = "" ->
   tempFile cfg = flag_file fl +:+ ".tmp" /\ tempFile cfg <> file cfg) /\
  (flag_temp_file fl <> "" -> tempFile cfg = flag_temp_file fl).
Proof.
  rewrite parseFlags_result. intros H.
  destruct (negb (valid_log_level (flag_log_level fl))); [discriminate|].
  destruct (nonempty (flag_url fl) && nonempty (flag_upstream_url fl)); [discriminate|].
  destruct (if nonempty (flag_url fl) then _ else _) as [err | up]; [discriminate|].
  destruct (String.eqb (flag_file fl) "" && bool_decide (up = None)); [discriminate|].
  injection H as <-. cbn [file tempFile]. split; [reflexivity|]. split.
  - intros ->. cbn. split; [reflexivity|]. apply string_app_neq. discriminate.
  - intros N. apply String.eqb_neq in N. now rewrite N.
Qed.

Lemma parseFlags_tempFile_witness :
  exists cfg,
    parseFlags Sample.parse_sample (Sample.flags_with "/var/run/token" "" "") = inr cfg /\
    tempFile cfg = "/var/run/token.tmp" /\ tempFile cfg <> file cfg.
Proof.
  eexists. split; [reflexivity|].
  exact (proj1 (proj2 (parseFlags_tempFile Sample.parse_sample
           (Sample.flags_with "/var/run/token" "" "") _ eq_refl)) eq_refl).
Defined.

(** X13: the deprecated [--url] is an exact alias of [--upstream.url]:
    a value given as the one has the result that it has given as the
    other, error or configuration. *)
Theorem parseFlags_url_alias (url_Parse : string -> string + URL) (fl : Flags)
  (x : string) :
  parseFlags url_Parse (with_urls x "" fl) = parseFlags url_Parse (with_urls "" x fl).
Proof.
  rewrite !parseFlags_result. cbn.
  destruct (negb (valid_log_level (flag_log_level fl))); [reflexivity|].
  destruct (nonempty x); cbn; reflexivity.
Qed.

(** ** The environment *)

Lemma LookupEnv_agree (env1 env2 : Env) (key : string) :
  env1 !! key = env2 !! key -> LookupEnv env1 key = LookupEnv env2 key.
Proof. unfold LookupEnv. now intros ->. Qed.

(** X14: the flags depend on the environment through eleven variables
    only ([LOG_LEVEL], [LOG_FORMAT], [WEB_INTERNAL_LISTEN], [WEB_LISTEN],
    [OIDC_ISSUER_URL], [OIDC_CLIENT_SECRET], [OIDC_CLIENT_ID],
    [OIDC_AUDIENCE], [FILE], [TEMP_FILE], [URL]).  The margin is looked
    up under the empty name, which no variable has: without [--margin]
    it is five minutes whatever the environment holds, and the user
    name, the password and [--upstream.url] have no variable either. *)
Theorem flags_of_environment (ParseDuration : string -> string + Duration)
  (env1 env2 : Env) (cl : CommandLine) :
  ((forall key, In key env_keys -> env1 !! key = env2 !! key) ->
   flags_of ParseDuration env1 cl = flags_of ParseDuration env2 cl) /\
  (opt_margin cl = None -> flag_margin (flags_of ParseDuration env1 cl) = 5 * Minute) /\
  (opt_oidc_username cl = None -> flag_oidc_username (flags_of ParseDuration env1 cl) = "") /\
  (opt_oidc_password cl = None -> flag_oidc_password (flags_of ParseDuration env1 cl) = "") /\
  (opt_upstream_url cl = None -> flag_upstream_url (flags_of ParseDuration env1 cl) = "").
Proof.
  split; [|repeat split; intros H; cbn; now rewrite H].
  intros H. unfold flags_of, flag_defaults, LookupEnvOrString.
  assert (E : forall key, In key env_keys -> LookupEnv env1 key = LookupEnv env2 key).
  { intros key Hin. apply LookupEnv_agree. now apply H. }
  rewrite !E by (unfold env_keys; cbn; tauto). reflexivity.
Qed.

Lemma flags_of_environment_witness :
  flags_of Sample.parse_duration_sample {[ "MARGIN" := "1m"; "OIDC_USERNAME" := "alice" ]}
           Sample.no_flags
  = flags_of Sample.parse_duration_sample ∅ Sample.no_flags.
Proof.
  refine (proj1 (flags_of_environment Sample.parse_duration_sample
            {[ "MARGIN" := "1m"; "OIDC_USERNAME" := "alice" ]} ∅ Sample.no_flags) _).
  intros key Hin. unfold env_keys in Hin. cbn in Hin.
  repeat (destruct Hin as [<- | Hin]; [vm_compute; reflexivity|]). destruct Hin.
Defined.

(** X15: the variable [URL] of the environment counts as [--url]: with
    it set, [--upstream.url] on the command line is refused like the
    two flags together. *)
Theorem environment_URL_excludes_upstream_url
  (url_Parse : string -> string + URL) (ParseDuration : string -> string + Duration)
  (env : Env) (cl : CommandLine) (u v : string) :
  env !! "URL" = Some u -> u <> "" ->
  opt_url cl = None ->
  opt_upstream_url cl = Some v -> v <> "" ->
  valid_log_level (flag_log_level (flags_of ParseDuration env cl)) = true ->
  parseFlags url_Parse (flags_of ParseDuration env cl) =
  inl "use only one of --url or --upstream.url".
Proof.
  intros E U O1 O2 V L. rewrite parseFlags_result, L. cbn [negb].
  assert (F1 : flag_url (flags_of ParseDuration env cl) = u).
  { cbn. rewrite O1. cbn. unfold LookupEnvOrString, LookupEnv. cbn. now rewrite E. }
  assert (F2 : flag_upstream_url (flags_of ParseDuration env cl) = v).
  { cbn. now rewrite O2. }
  rewrite F1, F2. apply nonempty_true in U, V. now rewrite U, V.
Qed.

Lemma environment_URL_excludes_upstream_url_witness :
  parseFlags Sample.parse_sample
    (flags_of Sample.parse_duration_sample
       {[ "URL" := "http://127.0.0.1:8443/api/metrics/v1/test" ]}
       (Sample.only_upstream_url "http://127.0.0.1:8443/api/metrics/v1/test"))
  = inl "use only one of --url or --upstream.url".
Proof.
  refine (environment_URL_excludes_upstream_url Sample.parse_sample
            Sample.parse_duration_sample
            {[ "URL" := "http://127.0.0.1:8443/api/metrics/v1/test" ]}
            (Sample.only_upstream_url "http://127.0.0.1:8443/api/metrics/v1/test")
            "http://127.0.0.1:8443/api/metrics/v1/test"
            "http://127.0.0.1:8443/api/metrics/v1/test" _ _ eq_refl eq_refl _ _).
  - vm_compute. reflexivity.
  - discriminate.
  - discriminate.
  - vm_compute. reflexivity.
Defined.

(** X16: the environment alone can configure file mode: with [FILE] set
    to a path, no [URL], and neither [--file] nor a URL flag nor
    [--temp-file] on the command line, [parseFlags] returns a
    configuration for that file, with the temporary file from
    [TEMP_FILE] or else the path with [.tmp], without upstream, and
    with the margin of the command line or five minutes. *)
Theorem environment_FILE_configures (url_Parse : string -> string + URL)
  (ParseDuration : string -> string + Duration) (env : Env) (cl : CommandLine)
  (f : string) :
  env !! "FILE" = Some f -> f <> "" ->
  env !! "URL" = None ->
  opt_file cl = None -> opt_url cl = None -> opt_upstream_url cl = None ->
  opt_temp_file cl = None ->
  valid_log_level (flag_log_level (flags_of ParseDuration env cl)) = true ->
  exists cfg,
    parseFlags url_Parse (flags_of ParseDuration env cl) = inr cfg /\
    file cfg = f /\
    url (upstream cfg) = None /\
    tempFile cfg = match env !! "TEMP_FILE" with
                   | Some "" | None => f +:+ ".tmp"
                   | Some t => t
                   end /\
    margin cfg = default (5 * Minute) (opt_margin cl).
Proof.
  intros E F U O1 O2 O3 O4 L. rewrite parseFlags_result, L. cbn [negb].
  assert (F1 : flag_file (flags_of ParseDuration env cl) = f).
  { cbn. rewrite O1. cbn. unfold LookupEnvOrString, LookupEnv. cbn. now rewrite E. }
  assert (F2 : flag_url (flags_of ParseDuration env cl) = "").
  { cbn. rewrite O2. cbn. unfold LookupEnvOrString, LookupEnv. cbn. now rewrite U. }
  assert (F3 : flag_upstream_url (flags_of ParseDuration env cl) = "").
  { cbn. now rewrite O3. }
  assert (F4 : flag_temp_file (flags_of ParseDuration env cl) =
               default "" (env !! "TEMP_FILE")).
  { cbn. rewrite O4. cbn. unfold LookupEnvOrString, LookupEnv. cbn.
    now destruct (env !! "TEMP_FILE"). }
  assert (F5 : flag_margin (flags_of ParseDuration env cl) = default (5 * Minute) (opt_margin cl)).
  { cbn. reflexivity. }
  rewrite F1, F2, F3, F4, F5. cbn [nonempty String.eqb negb andb].
  apply String.eqb_neq in F. rewrite F. cbn [andb].
  eexists. split; [reflexivity|]. cbn [file url upstream tempFile margin].
  repeat split.
  destruct (env !! "TEMP_FILE") as [[|c t]|]; reflexivity.
Qed.

Lemma environment_FILE_configures_witness :
  exists cfg,
    parseFlags Sample.parse_sample
      (flags_of Sample.parse_duration_sample {[ "FILE" := "/var/run/token" ]}
                Sample.no_flags) = inr cfg /\
    file cfg = "/var/run/token" /\ tempFile cfg = "/var/run/token.tmp" /\
    margin cfg = 5 * Minute.
Proof.
  destruct (environment_FILE_configures Sample.parse_sample Sample.parse_duration_sample
              {[ "FILE" := "/var/run/token" ]} Sample.no_flags "/var/run/token")
    as (cfg & H1 & H2 & _ & H4 & H5); try reflexivity; try discriminate.
  exists cfg. repeat split; assumption.
Defined.

(** ** Start-up *)

(** The runs of [main] that reach [g.Run()]. *)
Lemma main_reaches_run (url_Parse : string -> string + URL) (fl : Flags)
  (env : StartEnv) (actors : list Actor) :
  In (GroupRun actors) (main url_Parse fl env) ->
  exists cfg tokenURL,
    parseFlags url_Parse fl = inr cfg /\
    discovery env = inr tokenURL /\
    (url (upstream cfg) = None \/ caFile (upstream cfg) = "" \/
     is_Some (ReadFile (caFile (upstream cfg)) (disk env))) /\
    actors = [SignalHandler; InternalServer]
             ++ (if nonempty (file cfg) then [TokenFileLoop] else [])
             ++ match url (upstream cfg) with Some _ => [ProxyServer] | None => [] end.
Proof.
  unfold main. destruct (parseFlags url_Parse fl) as [err | cfg]; cbn.
  { intros [H | []]. discriminate. }
  destruct (discovery env) as [err | tokenURL]; cbn.
  { intros [H | [H | []]]; discriminate. }
  intros H. exists cfg, tokenURL. split; [reflexivity|]. split; [reflexivity|].
  destruct (url (upstream cfg)) as [u|].
  - destruct (nonempty (caFile (upstream cfg))) eqn:C.
    + destruct (ReadFile (caFile (upstream cfg)) (disk env)) as [c|] eqn:R; cbn in H.
      * destruct H as [H | [H | [H | []]]]; try discriminate. injection H as <-.
        split; [right; right; eauto|]. now destruct (nonempty (file cfg)).
      * destruct H as [H | [H | [H | []]]]; discriminate.
    + apply nonempty_false in C. cbn in H.
      destruct H as [H | [H | []]]; try discriminate. injection H as <-.
      split; [now right; left|]. now destruct (nonempty (file cfg)).
  - cbn in H. destruct H as [H | [H | []]]; try discriminate. injection H as <-.
    split; [now left|]. destruct (nonempty (file cfg)); cbn; now rewrite ?app_nil_r.
Qed.

(** X17: [main] reaches [g.Run()] exactly when [parseFlags] succeeds,
    the discovery of the issuer succeeds and, in proxy mode with
    [--upstream.ca-file], the CA file can be read; in file mode alone a
    CA file that is missing does no harm, because it is never read. *)
Theorem main_starts_iff (url_Parse : string -> string + URL) (fl : Flags)
  (env : StartEnv) :
  (exists actors, In (GroupRun actors) (main url_Parse fl env)) <->
  exists cfg,
    parseFlags url_Parse fl = inr cfg /\
    (exists tokenURL, discovery env = inr tokenURL) /\
    (url (upstream cfg) = None \/ caFile (upstream cfg) = "" \/
     is_Some (ReadFile (caFile (upstream cfg)) (disk env))).
Proof.
  split.
  - intros [actors H].
    destruct (main_reaches_run url_Parse fl env actors H) as (cfg & tu & P & D & C & _).
    exists cfg. eauto.
  - intros (cfg & P & [tu D] & C). unfold main. rewrite P, D.
    destruct (url (upstream cfg)) as [u|]; [|eexists; cbn; eauto].
    destruct (nonempty (caFile (upstream cfg))) eqn:N; [|eexists; cbn; eauto].
    destruct C as [C | [C | [c C]]]; [discriminate | |].
    + apply nonempty_true in N. contradiction.
    + rewrite C. eexists. cbn. eauto.
Qed.

(** X18: whenever [main] reaches [g.Run()] the group holds the signal
    handler and the internal server, the token file loop exactly when
    [--file] is set, the proxy exactly when an upstream URL is set, and
    at least one of these two: the process never runs without a loop
    or a proxy to feed. *)
Theorem main_actors (url_Parse : string -> string + URL) (fl : Flags)
  (env : StartEnv) (actors : list Actor) :
  In (GroupRun actors) (main url_Parse fl env) ->
  In SignalHandler actors /\ In InternalServer actors /\
  (In TokenFileLoop actors <-> flag_file fl <> "") /\
  (In ProxyServer actors <-> flag_url fl <> "" \/ flag_upstream_url fl <> "") /\
  (In TokenFileLoop actors \/ In ProxyServer actors).
Proof.
  intros H.
  destruct (main_reaches_run url_Parse fl env actors H) as (cfg & tu & P & _ & _ & ->).
  pose proof P as P'. rewrite parseFlags_result in P'.
  destruct (negb (valid_log_level (flag_log_level fl))); [discriminate|].
  destruct (nonempty (flag_url fl)) eqn:U, (nonempty (flag_upstream_url fl)) eqn:V;
    cbn [andb] in P'; [discriminate | | |].
  - apply nonempty_true in U. apply nonempty_false in V.
    destruct (url_Parse (flag_url fl)) as [err | u]; [discriminate|].
    rewrite andb_false_r in P'. injection P' as <-. cbn [file url upstream].
    destruct (nonempty (flag_file fl)) eqn:F;
      [apply nonempty_true in F | apply nonempty_false in F]; cbn;
      intuition (try discriminate; try congruence).
  - apply nonempty_false in U. apply nonempty_true in V.
    destruct (url_Parse (flag_upstream_url fl)) as [err | u]; [discriminate|].
    rewrite andb_false_r in P'. injection P' as <-. cbn [file url upstream].
    destruct (nonempty (flag_file fl)) eqn:F;
      [apply nonempty_true in F | apply nonempty_false in F]; cbn;
      intuition (try discriminate; try congruence).
  - apply nonempty_false in U, V. cbn [bool_decide] in P'.
    destruct (String.eqb_spec (flag_file fl) "") as [F | F]; [discriminate|].
    cbn in P'. injection P' as <-. cbn [file url upstream].
    apply nonempty_true in F as F'. rewrite F'. cbn.
    intuition (try discriminate; try congruence).
Qed.

Lemma main_actors_witness :
  In TokenFileLoop [SignalHandler; InternalServer; TokenFileLoop] /\
  ~ In ProxyServer [SignalHandler; InternalServer; TokenFileLoop].
Proof.
  assert (H : In (GroupRun [SignalHandler; InternalServer; TokenFileLoop])
                 (main Sample.parse_sample (Sample.flags_with "token" "" "")
                       Sample.start_ok)).
  { vm_compute. right. left. reflexivity. }
  destruct (main_actors Sample.parse_sample (Sample.flags_with "token" "" "")
              Sample.start_ok _ H) as (_ & _ & H3 & H4 & _).
  split.
  - apply H3. discriminate.
  - intros Hp. apply H4 in Hp. destruct Hp as [Hp | Hp]; now apply Hp.
Defined.

(* ===================================================================== *)
(** * Further properties of the path joining                              *)
(* ===================================================================== *)

Lemma trim_trailing_slash_app (x y : string) :
  y <> "" -> trim_trailing_slash (x +:+ y) = x +:+ trim_trailing_slash y.
Proof.
  intros Hy. induction x as [|c x IH]; [reflexivity|].
  rewrite !app_String. cbn [trim_trailing_slash]. rewrite <- IH.
  destruct (x +:+ y) eqn:E; [|reflexivity].
  apply app_nonempty in E as [_ E]. contradiction.
Qed.

Lemma trim_leading_slash_app (x y : string) :
  x <> "" -> trim_leading_slash (x +:+ y) = trim_leading_slash x +:+ y.
Proof.
  intros Hx. destruct x as [|c x]; [contradiction|].
  rewrite app_String. cbn. now destruct (Ascii.eqb c "/").
Qed.

Lemma trim_commute (c d : ascii) (r : string) :
  trim_leading_slash (trim_trailing_slash (String c (String d r))) =
  trim_trailing_slash (trim_leading_slash (String c (String d r))).
Proof.
  change (trim_trailing_slash (String c (String d r)))
    with (String c (trim_trailing_slash (String d r))).
  cbn [trim_leading_slash]. destruct (Ascii.eqb c "/"); reflexivity.
Qed.

Lemma single_slash_join_assoc (a b c : string) :
  single_slash_join (single_slash_join a b) c =
  single_slash_join a (single_slash_join b c).
Proof.
  unfold single_slash_join.
  assert (N : forall s, "/" +:+ s <> "") by (intros s; discriminate).
  destruct b as [|ch [|d r]].
  - cbn [trim_leading_slash trim_trailing_slash]. rewrite string_app_nil_r.
    rewrite trim_trailing_slash_app by discriminate. cbn [trim_trailing_slash Ascii.eqb].
    cbn. now rewrite string_app_nil_r.
  - cbn [trim_leading_slash trim_trailing_slash].
    destruct (Ascii.eqb_spec ch "/") as [->|Hne].
    + rewrite string_app_nil_r. rewrite trim_trailing_slash_app by discriminate.
      cbn. now rewrite string_app_nil_r.
    + rewrite trim_trailing_slash_app by discriminate.
      change ("/" +:+ String ch "") with (String "/" (String ch "")).
      cbn [trim_trailing_slash]. apply Ascii.eqb_neq in Hne. rewrite Hne.
      rewrite trim_leading_slash_app by discriminate. cbn [trim_leading_slash].
      rewrite Hne. now rewrite !string_app_assoc.
  - assert (T1 : trim_leading_slash (String ch (String d r)) <> "").
    { cbn. destruct (Ascii.eqb ch "/"); discriminate. }
    assert (T2 : trim_trailing_slash (String ch (String d r)) <> "") by discriminate.
    rewrite trim_trailing_slash_app by discriminate.
    rewrite (trim_trailing_slash_app "/") by exact T1.
    rewrite trim_leading_slash_app by exact T2.
    rewrite trim_commute. now rewrite !string_app_assoc.
Qed.

(** X19: joining is associative: joining [a] with [b] and the result
    with [c] gives what joining [a] with the join of [b] and [c] gives,
    for all strings, empty ones and runs of slashes included. *)
Theorem singleJoiningSlash_assoc (a b c : string) :
  (ab ← singleJoiningSlash a b; singleJoiningSlash ab c) =
  (bc ← singleJoiningSlash b c; singleJoiningSlash a bc).
Proof.
  rewrite (singleJoiningSlash_spec a b), (singleJoiningSlash_spec b c). cbn.
  rewrite !singleJoiningSlash_spec. f_equal. apply single_slash_join_assoc.
Qed.

Lemma len_trim_trailing_slash (a : string) :
  (len (trim_trailing_slash a) + (if HasSuffix a "/" then 1 else 0) = len a)%nat.
Proof.
  destruct (HasSuffix a "/") eqn:H.
  - rewrite (HasSuffix_slash_true a H) at 2. rewrite len_app. reflexivity.
  - rewrite (HasSuffix_slash_false a H). lia.
Qed.

Lemma len_trim_leading_slash (b : string) :
  (len (trim_leading_slash b) + (if HasPrefix b "/" then 1 else 0) = len b)%nat.
Proof.
  destruct (HasPrefix b "/") eqn:H.
  - apply HasPrefix_slash in H as [r ->]. cbn. lia.
  - rewrite (HasPrefix_slash_false b H). lia.
Qed.

(** X20: the join is never empty and its length is the sum of the two
    lengths plus one, less one for a trailing slash of [a] and less one
    for a leading slash of [b]. *)
Theorem singleJoiningSlash_length (a b : string) :
  exists r,
    singleJoiningSlash a b = Some r /\
    r <> "" /\
    (len r + (if HasSuffix a "/" then 1 else 0) + (if HasPrefix b "/" then 1 else 0)
     = len a + len b + 1)%nat.
Proof.
  exists (single_slash_join a b). split; [apply singleJoiningSlash_spec|]. split.
  - unfold single_slash_join. intros E. apply app_nonempty in E as [_ E]. discriminate.
  - unfold single_slash_join. rewrite !len_app.
    pose proof (len_trim_trailing_slash a). pose proof (len_trim_leading_slash b).
    cbn [len String.length] in *. unfold len in *. lia.
Qed.

Lemma join_by_base (r : SlashRule) (x y : string) :
  (r = MergeSlashes -> HasPrefix y "/" = true) ->
  exists rest, join_by r x y = x +:+ rest /\
  exists pre, join_by r x y = pre +:+ trim_leading_slash y.
Proof.
  intros H. destruct r; unfold join_by.
  - destruct (proj1 (HasPrefix_slash y) (H eq_refl)) as [t ->].
    rewrite substring_tail. cbn. eauto.
  - exists ("/" +:+ y). split; [reflexivity|].
    destruct y as [|c t]; [exists (x +:+ "/"); now rewrite string_app_assoc|].
    cbn [trim_leading_slash]. destruct (Ascii.eqb_spec c "/") as [->|].
    + exists (x +:+ "//"). now rewrite string_app_assoc.
    + exists (x +:+ "/"). now rewrite string_app_assoc.
  - exists y. split; [reflexivity|].
    destruct y as [|c t]; [exists x; reflexivity|].
    cbn [trim_leading_slash]. destruct (Ascii.eqb_spec c "/") as [->|].
    + exists (x +:+ "/"). now rewrite string_app_assoc.
    + exists x. reflexivity.
Qed.

(** X21: the joined path always begins with the whole path of [a] and
    ends with the whole path of [b] less one leading slash, and a raw
    path that is set begins with the escaped path of [a]: nothing of
    either path is dropped, decoded or normalised (a [..] stays), and
    the result is a path under the base. *)
Theorem joinURLPath_keeps_both (a b : URL) :
  exists path rawpath,
    joinURLPath a b = Some (path, rawpath) /\
    (exists rest, path = Path a +:+ rest) /\
    (exists pre, path = pre +:+ trim_leading_slash (Path b)) /\
    (rawpath = "" \/ exists rest, rawpath = EscapedPath a +:+ rest).
Proof.
  destruct (String.eqb (RawPath a) "" && String.eqb (RawPath b) "") eqn:E.
  - exists (single_slash_join (Path a) (Path b)), "".
    split; [unfold joinURLPath; now rewrite E, singleJoiningSlash_spec|].
    pose proof (singleJoiningSlash_rule (Path a) (Path b)) as R.
    rewrite singleJoiningSlash_spec in R. injection R as R.
    destruct (join_by_base (slash_rule (Path a) (Path b)) (Path a) (Path b))
      as (rest & H1 & pre & H2).
    { unfold slash_rule.
      destruct (HasSuffix (Path a) "/"), (HasPrefix (Path b) "/"); congruence. }
    rewrite R. split; [eauto|]. split; [eauto|]. now left.
  - eexists _, _. split; [apply (joinURLPath_escaped a b E)|].
    assert (M : slash_rule (EscapedPath a) (EscapedPath b) = MergeSlashes ->
                HasPrefix (EscapedPath b) "/" = true).
    { unfold slash_rule.
      destruct (HasSuffix (EscapedPath a) "/"), (HasPrefix (EscapedPath b) "/"); congruence. }
    destruct (join_by_base _ (Path a) (Path b)
                (fun Hm => match proj1 (HasPrefix_slash _) (M Hm) with
                           | ex_intro _ r Hr =>
                               match EscapedPath_slash b r Hr with
                               | ex_intro _ r' (conj Hp _) =>
                                   proj2 (HasPrefix_slash (Path b)) (ex_intro _ r' Hp)
                               end
                           end))
      as (rest & H1 & pre & H2).
    destruct (join_by_base _ (EscapedPath a) (EscapedPath b) M) as (rest' & H3 & _).
    split; [eauto|]. split; [eauto|]. right. eauto.
Qed.

Lemma HasSuffix_cons_nonempty (c : ascii) (s : string) :
  s <> "" -> HasSuffix (String c s) "/" = HasSuffix s "/".
Proof. destruct s as [|d s]; [contradiction|]. intros _. apply HasSuffix_cons. Qed.

Lemma upperhex_not_slash (c : ascii) :
  Ascii.eqb (upperhex (N.land (N_of_ascii c) 15)) "/" = false.
Proof. destruct c as [[] [] [] [] [] [] [] []]; vm_compute; reflexivity. Qed.

Lemma shouldEscape_slash (c : ascii) : shouldEscape c = true -> Ascii.eqb c "/" = false.
Proof.
  intros H. destruct (Ascii.eqb_spec c "/") as [->|]; [|reflexivity].
  vm_compute in H. discriminate.
Qed.

Lemma escape_nonempty (c : ascii) (s : string) : escape (String c s) <> "".
Proof. cbn. destruct (shouldEscape c); discriminate. Qed.

(** Escaping a path moves no slash at either end. *)
Lemma HasSuffix_escape (p : string) : HasSuffix (escape p) "/" = HasSuffix p "/".
Proof.
  induction p as [|c p IH]; [reflexivity|].
  destruct p as [|d p].
  - cbn [escape]. rewrite HasSuffix_one. destruct (shouldEscape c) eqn:S.
    + rewrite !HasSuffix_cons, HasSuffix_one, upperhex_not_slash.
      symmetry. now apply shouldEscape_slash.
    + apply HasSuffix_one.
  - rewrite HasSuffix_cons, <- IH.
    change (escape (String c (String d p)))
      with (if shouldEscape c
            then String "%" (String (upperhex (N.shiftr (N_of_ascii c) 4))
                    (String (upperhex (N.land (N_of_ascii c) 15)) (escape (String d p))))
            else String c (escape (String d p))).
    pose proof (escape_nonempty d p) as N.
    destruct (shouldEscape c).
    + rewrite !HasSuffix_cons_nonempty; [reflexivity | exact N | discriminate | discriminate].
    + now rewrite HasSuffix_cons_nonempty.
Qed.

(** X22: the path that [joinURLPath] returns is the single-slash join
    of the two paths whenever the escaped forms start and end with a
    slash where the paths do, in either branch; a base URL without
    [RawPath] always ends alike in both forms, so that only an encoded
    slash at the very start of the incoming raw path, or at the end of
    a base with [RawPath], makes the two differ. *)
Theorem joinURLPath_plain_join (a b : URL) :
  (HasSuffix (EscapedPath a) "/" = HasSuffix (Path a) "/" ->
   HasPrefix (EscapedPath b) "/" = HasPrefix (Path b) "/" ->
   fst <$> joinURLPath a b = Some (single_slash_join (Path a) (Path b))) /\
  (RawPath a = "" -> HasSuffix (EscapedPath a) "/" = HasSuffix (Path a) "/").
Proof.
  split.
  - intros Ha Hb.
    destruct (String.eqb (RawPath a) "" && String.eqb (RawPath b) "") eqn:E.
    + unfold joinURLPath. now rewrite E, singleJoiningSlash_spec.
    + rewrite (joinURLPath_escaped a b E). cbn. f_equal.
      pose proof (singleJoiningSlash_rule (Path a) (Path b)) as R.
      rewrite singleJoiningSlash_spec in R. injection R as ->.
      unfold slash_rule. now rewrite Ha, Hb.
  - intros R. unfold EscapedPath. rewrite R. cbn.
    destruct (String.eqb_spec (Path a) "*") as [->|]; [reflexivity|].
    apply HasSuffix_escape.
Qed.

Lemma joinURLPath_plain_join_witness :
  fst <$> joinURLPath Sample.upstream_url Sample.url_escaped =
  Some (single_slash_join "/api/metrics/v1/test" "/foo/b r").
Proof.
  refine (proj1 (joinURLPath_plain_join Sample.upstream_url Sample.url_escaped) _ _).
  - vm_compute. reflexivity.
  - vm_compute. reflexivity.
Defined.

(** An encoded slash at the end of the base is not merged with the
    slash of the incoming path: the two paths are concatenated. *)
Example joinURLPath_encoded_slash :
  joinURLPath Sample.url_encoded_slash (path_url "/x") = Some ("/api//x", "/api%2F/x") /\
  single_slash_join "/api/" "/x" = "/api/x".
Proof. split; vm_compute; reflexivity. Qed.

(* ===================================================================== *)
(** * Further properties of the proxy                                     *)
(* ===================================================================== *)

(** X23: the request that the proxy gives to its base transport
    carries exactly one [Authorization] value, the type of the token
    and the access token, whatever the type is and whatever
    [Authorization] header the client sent, which is never forwarded.
    A header of the client passes unchanged when it is neither
    [Authorization], [X-Forwarded-Prefix], [X-Forwarded-For] nor a
    hop-by-hop header and no value of [Connection] lists it; a header
    that [Connection] lists is removed.  The method passes unchanged,
    and so does the body unless the length of the content is zero.
    When the token source fails nothing is sent: the round trip ends
    with the error of the source. *)
Theorem forward_headers (ToLower TrimSpace : string -> string) (target : URL)
  (request : Request) :
  (forall err, forward ToLower TrimSpace target (inl err) request = Some (inl err)) /\
  (forall tok, exists out,
     forward ToLower TrimSpace target (inr tok) request = Some (inr out) /\
     ReqHeader out !! "Authorization" = Some [Token_Type tok +:+ " " +:+ AccessToken tok] /\
     (forall key,
        key ∉ "Authorization" :: "X-Forwarded-Prefix" :: "X-Forwarded-For" :: hopHeaders ->
        Forall (fun f => CanonicalMIMEHeaderKey f <> key)
               (connection_fields TrimSpace (ReqHeader request)) ->
        ReqHeader out !! key = ReqHeader request !! key) /\
     (forall key,
        key ∉ "Authorization" :: "X-Forwarded-For" :: hopHeaders ->
        Exists (fun f => CanonicalMIMEHeaderKey f = key)
               (connection_fields TrimSpace (ReqHeader request)) ->
        ReqHeader out !! key = None) /\
     Method out = Method request /\
     Body out = (if ContentLength request =? 0 then "" else Body request)).
Proof.
  split; [intros err; apply forward_source_error|].
  intros tok.
  destruct (joinURLPath_total target (ReqURL request)) as (path & rawpath & J).
  eexists. split; [apply (forward_fields ToLower TrimSpace target request tok path rawpath J)|].
  cbn [ReqHeader Method Body]. split; [apply lookup_insert_eq|].
  split; [|split; [|split; reflexivity]].
  - intros key K C.
    apply not_elem_of_cons in K as [K1 K]. apply not_elem_of_cons in K as [K2 K].
    apply not_elem_of_cons in K as [K3 K].
    rewrite lookup_insert_ne by congruence.
    rewrite proxy_headers_frame; [| exact K | exact K3 |].
    + now rewrite lookup_insert_ne by congruence.
    + now rewrite connection_fields_insert by discriminate.
  - intros key K C.
    apply not_elem_of_cons in K as [K1 K]. apply not_elem_of_cons in K as [K3 K].
    rewrite lookup_insert_ne by congruence.
    apply proxy_headers_removed; [exact K | exact K3 |].
    now rewrite connection_fields_insert by discriminate.
Qed.

Lemma forward_headers_witness :
  exists out,
    forward Sample.to_lower Sample.trim_space Sample.upstream_url
            (inr Sample.token_mac) Sample.request_with_auth
      = Some (inr out) /\
    ReqHeader out !! "Authorization" = Some ["MAC h480djs93hd8"] /\
    ReqHeader out !! "Content-Type" = Some ["application/x-protobuf"].
Proof.
  destruct (proj2 (forward_headers Sample.to_lower Sample.trim_space
                     Sample.upstream_url Sample.request_with_auth)
              Sample.token_mac) as (out & H1 & H2 & H3 & _).
  exists out. split; [exact H1|]. split; [exact H2|].
  rewrite H3; [reflexivity | |].
  - vm_compute. intros E. repeat (apply elem_of_cons in E as [E | E]; [discriminate|]).
    now apply elem_of_nil in E.
  - vm_compute. apply Forall_nil. exact I.
Defined.

(* ===================================================================== *)
(** * The first version of the loop                                       *)
(* ===================================================================== *)

Lemma V1_Log_error (cfg : V1.config) (kvs : list (string * LogValue)) (st : State) :
  V1.Log cfg LevelError kvs st =
  mkState (files st) (logged st ++ [mkLogEntry LevelError kvs]).
Proof. unfold V1.Log. now destruct (V1.logLevel cfg). Qed.

Lemma V1_loop_continue (cfg : V1.config) (e : CycleEnv) (rest : list CycleEnv)
  (st st' : State) (d : Duration) :
  V1.cycle cfg e st = (st', Some d) -> ctx_done e = false ->
  V1.loop cfg (e :: rest) st =
  V1.mkRun (V1.final (V1.loop cfg rest st'))
           (timer_wait d :: V1.slept (V1.loop cfg rest st'))
           (S (V1.fetches (V1.loop cfg rest st')))
           (V1.exit (V1.loop cfg rest st')).
Proof. intros C D. cbn [V1.loop]. now rewrite C, D. Qed.

(** X24: in the first version a failed fetch kills the loop: the
    [select] dereferences the nil token, whether or not the context is
    done.  A run panics exactly when it reaches a fetch that fails, that
    is when a fetch fails after iterations that all got a token and
    whose [select] took the timer. *)
Theorem V1_loop_panics_iff (cfg : V1.config) (envs : list CycleEnv) (st : State) :
  V1.exit (V1.loop cfg envs st) = V1.Panicked <->
  exists pre e post err,
    envs = pre ++ e :: post /\
    fetched e = inl err /\
    (forall e', In e' pre -> ctx_done e' = false /\ exists t, fetched e' = inr t).
Proof.
  revert st. induction envs as [|e rest IH]; intros st.
  - cbn. split; [discriminate|]. intros (pre & e & post & err & E & _).
    destruct pre; discriminate.
  - destruct (fetched e) as [err | t] eqn:F.
    + cbn [V1.loop]. unfold V1.cycle. rewrite F. cbn. split; [|reflexivity].
      intros _. exists [], e, rest, err.
      split; [reflexivity|]. split; [exact F|]. intros e' [].
    + assert (C : exists st' d, V1.cycle cfg e st = (st', Some d)).
      { unfold V1.cycle. rewrite F. eauto. }
      destruct C as (st' & d & C). destruct (ctx_done e) eqn:D.
      * cbn [V1.loop]. rewrite C, D. cbn. split; [discriminate|].
        intros (pre & e0 & post & err & E & F0 & H).
        destruct pre as [|p pre]; cbn in E; injection E as <- _.
        { congruence. }
        { destruct (H e (or_introl eq_refl)) as [D' _]. congruence. }
      * rewrite (V1_loop_continue cfg e rest st st' d C D). cbn [V1.exit].
        rewrite IH. split.
        { intros (pre & e0 & post & err & -> & F0 & H).
          exists (e :: pre), e0, post, err.
          split; [reflexivity|]. split; [exact F0|].
          intros e' [<- | Hin]; [eauto | now apply H]. }
        { intros (pre & e0 & post & err & E & F0 & H).
          destruct pre as [|p pre]; cbn in E; injection E as <- ->.
          { congruence. }
          exists pre, e0, post, err.
          split; [reflexivity|]. split; [exact F0|].
          intros e' Hin. apply H. now right. }
Qed.

Example V1_loop_panic_scenario :
  V1.exit (V1.loop Sample.cfg_v1
             [Sample.world_ok (Sample.token_expiring_in (10 * Minute));
              Sample.world_fetch_error; Sample.world_fetch_error]
             Sample.state_empty) = V1.Panicked /\
  V1.fetches (V1.loop Sample.cfg_v1
                [Sample.world_ok (Sample.token_expiring_in (10 * Minute));
                 Sample.world_fetch_error; Sample.world_fetch_error]
                Sample.state_empty) = 2%nat.
Proof. split; vm_compute; reflexivity. Qed.

(** X25: the first version writes the token file in place.  For a valid
    token the timer is always set from the expiry of that token, also
    when the write failed: a write that fails after [n] bytes leaves the
    token file with the first [n] bytes of the new token, logs the
    error, and the next fetch comes only at expiry minus margin; there
    is no retry interval. *)
Theorem V1_write_in_place (cfg : V1.config) (e : CycleEnv) (st : State) (t : Token) :
  fetched e = inr t ->
  Token_Valid t (now_valid e) = true ->
  snd (V1.cycle cfg e st) =
    Some (Duration_sub (Time_Sub (Expiry t) (now_sched e)) (V1.margin cfg)) /\
  (write_outcome e = WriteOk ->
   ReadFile (V1.file cfg) (files (fst (V1.cycle cfg e st))) = Some (AccessToken t) /\
   logged (fst (V1.cycle cfg e st)) = logged st) /\
  (forall n err, write_outcome e = WriteShort n err ->
   ReadFile (V1.file cfg) (files (fst (V1.cycle cfg e st))) =
     Some (String.substring 0 n (AccessToken t)) /\
   logged (fst (V1.cycle cfg e st)) = logged st ++
     [mkLogEntry LevelError
        [("msg", VStr "failed to write token to disk"); ("err", VStr err)]]) /\
  (forall err, write_outcome e = WriteOpenErr err ->
   files (fst (V1.cycle cfg e st)) = files st).
Proof.
  intros F V. unfold V1.cycle. rewrite F, V. cbn [negb snd fst].
  split; [reflexivity|]. split; [|split].
  - intros ->. cbn [WriteFile files logged]. split; [|reflexivity].
    apply truncate_and_write_read.
  - intros n err ->. cbn [WriteFile]. rewrite V1_Log_error. cbn [files logged].
    split; [|reflexivity]. apply truncate_and_write_read.
  - intros err ->. cbn [WriteFile]. now rewrite V1_Log_error.
Qed.

Lemma V1_write_in_place_witness :
  ReadFile "token"
    (files (fst (V1.cycle Sample.cfg_v1
                   (Sample.world_disk_full (Sample.token_expiring_in (10 * Minute)))
                   Sample.state_old_token))) = Some "" /\
  snd (V1.cycle Sample.cfg_v1
         (Sample.world_disk_full (Sample.token_expiring_in (10 * Minute)))
         Sample.state_old_token) = Some (5 * Minute).
Proof.
  destruct (V1_write_in_place Sample.cfg_v1
              (Sample.world_disk_full (Sample.token_expiring_in (10 * Minute)))
              Sample.state_old_token (Sample.token_expiring_in (10 * Minute))
              eq_refl eq_refl) as (H1 & _ & H3 & _).
  split.
  - exact (proj1 (H3 0%nat "no space left on device" eq_refl)).
  - rewrite H1. vm_compute. reflexivity.
Defined.

(** X26: in the first version a token that has an access token but is
    no longer valid (it expires within ten seconds, or has expired) is
    not written, and with a margin of ten seconds or more the timer has
    already expired when it is set: the loop fetches again without any
    pause for as long as the issuer returns such tokens. *)
Theorem V1_expired_token_no_pause (cfg : V1.config) (e : CycleEnv) (st : State)
  (t : Token) :
  fetched e = inr t ->
  Token_Valid t (now_valid e) = false ->
  AccessToken t <> "" ->
  ns (now_valid e) <= ns (now_sched e) ->
  in_int64 (ns (Expiry t) - ns (now_sched e)) ->
  in_int64 (ns (Expiry t) - ns (now_sched e) - V1.margin cfg) ->
  10 * Second <= V1.margin cfg ->
  files (fst (V1.cycle cfg e st)) = files st /\
  exists d, snd (V1.cycle cfg e st) = Some d /\ timer_wait d = 0 /\
  forall rest, ctx_done e = false ->
    V1.slept (V1.loop cfg (e :: rest) st) =
    0 :: V1.slept (V1.loop cfg rest (fst (V1.cycle cfg e st))).
Proof.
  intros F V A Hnow R1 R2 M.
  assert (X : ns (Expiry t) - 10 * Second < ns (now_valid e)).
  { unfold Token_Valid, Token_expired in V. apply String.eqb_neq in A.
    rewrite A in V. cbn [negb andb] in V.
    destruct (Time_IsZero (Expiry t)); [discriminate|].
    apply negb_false_iff in V. unfold Time_Before, Time_Add, Time_Round0, expiryDelta in V.
    cbn [ns] in V. apply Z.ltb_lt in V. lia. }
  assert (C : V1.cycle cfg e st =
              (mkState (files st)
                 (logged st ++ [mkLogEntry LevelError
                    [("msg", VStr "token is invalid"); ("exp", VTime (Expiry t))]]),
               Some (ns (Expiry t) - ns (now_sched e) - V1.margin cfg))).
  { unfold V1.cycle. rewrite F, V. cbn [negb]. rewrite V1_Log_error.
    unfold Duration_sub. now rewrite (Time_Sub_in_range _ _ R1), (wrap64_in_range _ R2). }
  rewrite C. cbn [fst snd files]. split; [reflexivity|].
  assert (W : timer_wait (ns (Expiry t) - ns (now_sched e) - V1.margin cfg) = 0).
  { unfold timer_wait. lia. }
  eexists. split; [reflexivity|]. split; [exact W|].
  intros rest D. rewrite (V1_loop_continue cfg e rest st _ _ C D). cbn [V1.slept].
  now rewrite W.
Qed.

Lemma V1_expired_token_no_pause_witness :
  V1.slept (V1.loop Sample.cfg_v1
              [Sample.world_ok (Sample.token_expiring_in (5 * Second));
               Sample.world_ok (Sample.token_expiring_in (5 * Second))]
              Sample.state_empty) = [0; 0].
Proof.
  assert (R1 : in_int64 (ns (Expiry (Sample.token_expiring_in (5 * Second)))
                         - ns Sample.now0))
    by (vm_compute; split; discriminate).
  assert (R2 : in_int64 (ns (Expiry (Sample.token_expiring_in (5 * Second)))
                         - ns Sample.now0 - V1.margin Sample.cfg_v1))
    by (vm_compute; split; discriminate).
  assert (M : 10 * Second <= V1.margin Sample.cfg_v1) by (vm_compute; discriminate).
  assert (N : ns Sample.now0 <= ns Sample.now0) by lia.
  assert (A : AccessToken (Sample.token_expiring_in (5 * Second)) <> "") by discriminate.
  assert (H : forall st rest,
            V1.slept (V1.loop Sample.cfg_v1
                        (Sample.world_ok (Sample.token_expiring_in (5 * Second)) :: rest) st)
            = 0 :: V1.slept (V1.loop Sample.cfg_v1 rest
                               (fst (V1.cycle Sample.cfg_v1
                                       (Sample.world_ok (Sample.token_expiring_in (5 * Second)))
                                       st)))).
  { intros st rest.
    destruct (V1_expired_token_no_pause Sample.cfg_v1
                (Sample.world_ok (Sample.token_expiring_in (5 * Second))) st
                (Sample.token_expiring_in (5 * Second)) eq_refl eq_refl A N R1 R2 M)
      as (_ & d & _ & _ & K).
    exact (K rest eq_refl). }
  rewrite !H. reflexivity.
Defined.



(* ===================================================================== *)
(** * The second version of the configuration                             *)
(* ===================================================================== *)

(** X28: the current [parseFlags] is compatible with the one of the
    second version: on the flags of the second version, with every newer
    flag unset, it fails exactly when the older one fails, with the
    same message except for the name of the flag in the message about
    the missing [--file] and URL, and it accepts with a configuration
    that says the same, in particular with the same token endpoint
    parameters (the audience alone). *)
Theorem parseFlags_compatible (url_Parse : string -> string + URL) (fl : V2.Flags) :
  match V2.parseFlags url_Parse fl, parseFlags url_Parse (upgrade_flags fl) with
  | inr c2, inr c =>
      same_config c2 c /\
      EndpointParams c =
        (if nonempty (V1.audience (V2.oidc c2))
         then {[ "audience" := [V1.audience (V2.oidc c2)] ]} else ∅)
  | inl e2, inl e =>
      e = e2 \/
      (e2 = "one of --file or --url is required" /\
       e = "one of --file or --upstream.url is required")
  | _, _ => False
  end.
Proof.
  rewrite parseFlags_result. unfold V2.parseFlags, valid_log_level, upgrade_flags.
  cbn [flag_log_level flag_url flag_upstream_url flag_file flag_temp_file
       flag_log_format flag_margin flag_debug_name flag_oidc_audience
       flag_oidc_client_id flag_oidc_client_secret flag_oidc_issuer_url
       flag_oidc_username flag_oidc_password flag_web_listen
       flag_web_internal_listen flag_upstream_ca_file flag_upstream_read_timeout
       flag_upstream_write_timeout flag_scope].
  change (nonempty "") with false. rewrite andb_false_r.
  destruct (String.eqb (V2.flag_log_level fl) "error") eqn:L1,
           (String.eqb (V2.flag_log_level fl) "warn") eqn:L2,
           (String.eqb (V2.flag_log_level fl) "info") eqn:L3,
           (String.eqb (V2.flag_log_level fl) "debug") eqn:L4;
    cbn [orb negb]; try (now left);
    (destruct (nonempty (V2.flag_url fl));
     [ destruct (url_Parse (V2.flag_url fl)) as [err | u]; [now left|];
       rewrite !andb_false_r
     | cbn [bool_decide]; destruct (String.eqb (V2.flag_file fl) ""); cbn [andb];
       [now right|] ]);
    (split; [repeat split|]);
    unfold EndpointParams; cbn; now destruct (nonempty (V2.flag_oidc_audience fl)).
Qed.
